(** * Coordination core of rivanna.dev's cluster test workloads

    A shallow embedding of the three Python scripts that carry the
    coordination logic of the repository:

    - [apps/cli/tests/tier3-multinode-ray/coordinator.py]: the file based
      rendezvous between the Ray head and its workers ([write_file],
      [poll_file], [run_worker], the [SLURM_PROCID] dispatch);
    - [apps/cli/tests/tier2-multinode-ddp/train.py]: [check_topology];
    - [apps/cli/tests/workloads/test-checkpoint-restart/long_train.py]:
      the signal handler of a resumable segment.

    Python values are modelled as follows.  A [str] is a [string] whose
    characters are read as code points below 256; wall-clock readings of
    [time.time()] are exact rationals; a raised exception is a value of
    [exn] carried by [result]; the file system is a finite map from paths
    to file contents. *)

From Stdlib Require Import Ascii String ZArith QArith Qround Lqa Lia.
From stdpp Require Import gmap strings list sorting.

Open Scope string_scope.
Open Scope list_scope.

(** ** Python runtime *)

Module Py.

(** Exceptions the scripts raise or let escape. *)
Inductive exn :=
| SystemExit (code : Z)
| TimeoutError (msg : string)
| ValueError (msg : string)
| FileNotFoundError (path : string)
| IndexError (msg : string)
| OSError (errno : Z).

Inductive result (A : Type) :=
| Ret (a : A)
| Raise (e : exn).
Arguments Ret {A} a.
Arguments Raise {A} e.

Definition bind {A B} (m : result A) (k : A -> result B) : result B :=
  match m with
  | Ret a => k a
  | Raise e => Raise e
  end.

(** Exit status of the interpreter when the main module finishes with
    [r]: falling off the end gives 0, [sys.exit(n)] gives [n], and any
    other exception that nobody caught prints a traceback and gives 1. *)
Definition exit_status {A} (r : result A) : Z :=
  match r with
  | Ret _ => 0
  | Raise (SystemExit n) => n
  | Raise _ => 1
  end.

(** [str.isspace] on one character (code points below 256). *)
Definition isspace (c : ascii) : bool :=
  let n := N_of_ascii c in
  ((9 <=? n) && (n <=? 13) || (28 <=? n) && (n <=? 31)
   || (n =? 32) || (n =? 133) || (n =? 160))%N.

Fixpoint lstrip (s : string) : string :=
  match s with
  | EmptyString => EmptyString
  | String c s' => if isspace c then lstrip s' else s
  end.

Fixpoint rstrip (s : string) : string :=
  match s with
  | EmptyString => EmptyString
  | String c s' =>
      match rstrip s' with
      | EmptyString => if isspace c then EmptyString else String c EmptyString
      | r => String c r
      end
  end.

(** [s.strip()] *)
Definition strip (s : string) : string := rstrip (lstrip s).

(** Truth value of a [str]: only the empty string is false. *)
Definition truthy (s : string) : bool :=
  match s with
  | EmptyString => false
  | _ => true
  end.

Definition CR : ascii := ascii_of_N 13.
Definition LF : ascii := ascii_of_N 10.

(** Text-mode reading with the default [newline=None]: a carriage
    return, alone or followed by a line feed, is handed to the caller
    as one line feed. *)
Fixpoint universal_newlines (s : string) : string :=
  match s with
  | EmptyString => EmptyString
  | String c s' =>
      if Ascii.eqb c CR then
        match s' with
        | String c' s'' =>
            if Ascii.eqb c' LF then String LF (universal_newlines s'')
            else String LF (universal_newlines s')
        | EmptyString => String LF EmptyString
        end
      else String c (universal_newlines s')
  end.

Fixpoint contains_char (c : ascii) (s : string) : bool :=
  match s with
  | EmptyString => false
  | String c' s' => Ascii.eqb c' c || contains_char c s'
  end.

Definition first_char (s : string) : option ascii :=
  match s with
  | EmptyString => None
  | String c _ => Some c
  end.

Fixpoint last_char (s : string) : option ascii :=
  match s with
  | EmptyString => None
  | String c EmptyString => Some c
  | String _ s' => last_char s'
  end.

(** A non-empty string that neither starts nor ends with white space. *)
Definition edge_clean (s : string) : bool :=
  match first_char s, last_char s with
  | Some a, Some b => negb (isspace a) && negb (isspace b)
  | _, _ => false
  end.

(** [a in b] on strings: [a] occurs in [b] as a contiguous run. *)
Fixpoint str_in (a b : string) : bool :=
  String.prefix a b ||
  match b with
  | EmptyString => false
  | String _ b' => str_in a b'
  end.

Definition digit_value (c : ascii) : option Z :=
  let n := N_of_ascii c in
  if ((48 <=? n) && (n <=? 57))%N then Some (Z.of_N n - 48)%Z else None.

(** Digits of a decimal literal; single underscores may separate
    digits.  [after_digit] tells whether the previous character was a
    digit. *)
Fixpoint int_digits (acc : Z) (after_digit : bool) (s : string) : option Z :=
  match s with
  | EmptyString => if after_digit then Some acc else None
  | String c s' =>
      match digit_value c with
      | Some d => int_digits (10 * acc + d)%Z true s'
      | None =>
          if Ascii.eqb c "_" && after_digit
          then int_digits acc false s'
          else None
      end
  end.

(** [int(s)] for a string argument, base 10 (ASCII digits). *)
Definition int (s : string) : result Z :=
  let body := strip s in
  let parsed :=
    match body with
    | String "-" ds => Z.opp <$> int_digits 0 false ds
    | String "+" ds => int_digits 0 false ds
    | _ => int_digits 0 false body
    end in
  match parsed with
  | Some n => Ret n
  | None => Raise (ValueError ("invalid literal for int() with base 10: " +:+ s))
  end.

(** [os.environ.get(key, default)] *)
Definition environ_get (env : gmap string string) (key dflt : string) : string :=
  default dflt (env !! key).

(** [os.path.join(a, b)] for two components on POSIX. *)
Definition path_join (a b : string) : string :=
  match b with
  | String "/" _ => b
  | _ =>
      if truthy a && negb (String.prefix "/" (String.rev a))
      then a +:+ "/" +:+ b
      else a +:+ b
  end.

(** [x < y] on clock readings. *)
Definition Qltb (x y : Q) : bool :=
  (Qnum x * Z.pos (Qden y) <? Qnum y * Z.pos (Qden x))%Z.

(** The integer that [format(x, ".0f")] prints: the nearest integer,
    ties going to the even one. *)
Definition round_half_even (x : Q) : Z :=
  let f := Qfloor x in
  match (2 * (x - inject_Z f) ?= 1)%Q with
  | Lt => f
  | Gt => (f + 1)%Z
  | Eq => if Z.even f then f else (f + 1)%Z
  end.

(** [set(l)] and [sorted(s)] on strings (code point order). *)
Definition py_set (l : list string) : gset string := list_to_set l.

Definition str_le (a b : string) : Prop := Is_true (String.leb a b).

Definition sorted (s : gset string) : list string :=
  merge_sort str_le (elements s).

End Py.

Export Py.

(** ** coordinator.py: rendezvous through files on shared scratch *)

Module Coordinator.

(** The shared directory: path |-> content of every regular file.
    Directories are not modelled; [os.makedirs(..., exist_ok=True)] is what
    lets the [open] that follows find its parent directory. *)
Abbreviation FS := (gmap string string).

Definition SHARED_DIR : string := "/scratch/abs6bd/.rv/ray_cluster".
Definition ADDR_FILE (job_id : string) : string :=
  path_join SHARED_DIR (job_id +:+ ".addr").
Definition DONE_FILE (job_id : string) : string :=
  path_join SHARED_DIR (job_id +:+ ".done").

(** [open(path, "w")]: the file is created, or cut to length zero. *)
Definition open_w (fs : FS) (path : string) : FS := <[path := ""]> fs.

(** Leaving the [with] block: the buffered text reaches the file. *)
Definition flush_close (fs : FS) (path content : string) : FS :=
  <[path := content]> fs.

(** The file system states a reader on another node can meet while
    [write_file(path, content)] runs, oldest first. *)
Definition write_file_states (fs : FS) (path content : string) : list FS :=
  [fs; open_w fs path; flush_close (open_w fs path) path content].

Definition write_file (fs : FS) (path content : string) : FS :=
  flush_close (open_w fs path) path content.

Definition path_exists (fs : FS) (path : string) : bool :=
  bool_decide (is_Some (fs !! path)).

(** [open(path).read()] *)
Definition read_text (fs : FS) (path : string) : result string :=
  match fs !! path with
  | Some raw => Ret (universal_newlines raw)
  | None => Raise (FileNotFoundError path)
  end.

(** One pass through the body of the [while] of [poll_file], up to the
    [time.sleep]: [Some content] when it returns, [None] when it goes on
    to sleep.  [fs_seen] is the file system at [os.path.exists], [fs_read]
    the one at [open]. *)
Definition poll_attempt (fs_seen fs_read : FS) (path : string)
  : result (option string) :=
  if path_exists fs_seen path then
    bind (read_text fs_read path) (fun text =>
      let content := strip text in
      if truthy content then Ret (Some content) else Ret None)
  else Ret None.

(** [time.sleep(d)] moves the clock. *)
Definition sleep (now d : Q) : result Q :=
  if Qltb d 0 then Raise (ValueError "sleep length must be non-negative")
  else Ret (now + d)%Q.

(** The [while] of [poll_file].  [fs_at t] is the shared directory at
    time [t]; the result carries the clock at the moment of return. *)
Fixpoint poll_loop (fuel : nat) (fs_at : Q -> FS) (path : string)
    (deadline interval now : Q) : option (result string * Q) :=
  match fuel with
  | O => None
  | S fuel' =>
      if Qltb now deadline then
        match poll_attempt (fs_at now) (fs_at now) path with
        | Raise e => Some (Raise e, now)
        | Ret (Some content) => Some (Ret content, now)
        | Ret None =>
            match sleep now interval with
            | Raise e => Some (Raise e, now)
            | Ret now' => poll_loop fuel' fs_at path deadline interval now'
            end
        end
      else Some (Raise (TimeoutError ("Timed out waiting for " +:+ path)), now)
  end.

Definition poll_file (fuel : nat) (fs_at : Q -> FS) (path : string)
    (timeout interval now : Q) : option (result string * Q) :=
  poll_loop fuel fs_at path (now + timeout)%Q interval now.


(** Module level configuration, read from the environment on import. *)
Record config := {
  SLURM_PROCID : Z;
  SLURM_JOB_ID : string;
  NUM_GPUS_PER_NODE : Z
}.

Definition module_init (env : gmap string string) : result config :=
  bind (int (environ_get env "SLURM_PROCID" "0")) (fun procid =>
  let job_id := environ_get env "SLURM_JOB_ID" "0" in
  bind (int (environ_get env "SLURM_GPUS_ON_NODE" "2")) (fun gpus =>
  Ret {| SLURM_PROCID := procid; SLURM_JOB_ID := job_id;
         NUM_GPUS_PER_NODE := gpus |})).

Inductive role := Head | Worker.

(** The [if] under [__main__]: which of [run_head], [run_worker] runs. *)
Definition entry_point (cfg : config) : role :=
  if (SLURM_PROCID cfg =? 0)%Z then Head else Worker.

(** The whole script up to the call of [run_head] or [run_worker]. *)
Definition main_role (env : gmap string string) : result role :=
  bind (module_init env) (fun cfg => Ret (entry_point cfg)).

(** An entry of [ray.nodes()]. *)
Record ray_node := { Alive : bool; NodeName : option string }.

(** [run_head], cluster formation report: the names of the live nodes
    and the multi-node verdict. *)
Definition node_hostnames (nodes : list ray_node) : list string :=
  let alive := filter (fun n => Is_true (Alive n)) nodes in
  sorted (py_set (map (fun n => default "unknown" (NodeName n)) alive)).

Definition head_is_multi_node (nodes : list ray_node) : bool :=
  bool_decide (1 < size (py_set (node_hostnames nodes))).

Section Worker.

(** [ray.init(address=...)] on the worker: its outcome and the time at
    which it returns belong to Ray. *)
Variable ray_init : string -> Q -> result unit * Q.



End Worker.

(** *** The rest of the script: cleanup and the head's wait *)




(** The instant of the [k]-th pass of a polling loop that started at
    [now] and sleeps [interval] between passes. *)
Fixpoint tick (now interval : Q) (k : nat) : Q :=
  match k with
  | O => now
  | S k' => tick (now + interval)%Q interval k'
  end.





End Coordinator.

(** ** train.py (tier 2): topology check after the process group is up *)

Module Topology.

(** *** The gathered host names *)

Definition NUL : ascii := ascii_of_N 0.

Fixpoint take_bytes (n : nat) (s : string) : string :=
  match n, s with
  | S n', String c s' => String c (take_bytes n' s')
  | _, _ => EmptyString
  end.

Fixpoint zeros (n : nat) : string :=
  match n with
  | O => EmptyString
  | S n' => String NUL (zeros n')
  end.

(** The 256 byte tensor a rank contributes to [all_gather]: the first
    256 bytes of its host name, padded with zero bytes.  Host names are
    taken as ASCII, so that [encode] and [decode] change nothing. *)
Definition hostname_tensor (hostname : string) : string :=
  let hostname_bytes := take_bytes 256 hostname in
  hostname_bytes +:+ zeros (256 - String.length hostname_bytes).

(** [bytes.rstrip(b"\x00")] *)
Fixpoint rstrip_nul (s : string) : string :=
  match s with
  | EmptyString => EmptyString
  | String c s' =>
      match rstrip_nul s' with
      | EmptyString =>
          if Ascii.eqb c NUL then EmptyString else String c EmptyString
      | r => String c r
      end
  end.

(** [all_gather] hands every rank the tensors of all ranks, in rank
    order; [gathered_hostnames] is the list [hostnames] built from it. *)
Definition gathered_hostnames (rank_hosts : list string) : list string :=
  map (fun h => rstrip_nul (hostname_tensor h)) rank_hosts.

(** *** The report of rank 0 *)

(** What rank 0 prints, by content. *)
Inductive line :=
| UniqueHostsLine (hosts : list string)
| EnvLine (name value : string)
| MasterAddrPassed
| MasterAddrFailed (master_addr rank0_host : string)
| MultiNodePassed (nodes : nat)
| SingleNodeWarning
| CrossNodeNotTested.

Record results := {
  unique_hosts : nat;
  res_hostnames : list string;
  is_multi_node : bool;
  master_addr : string;
  master_addr_correct : bool
}.

(** The [if] that compares [MASTER_ADDR] with [hostnames[0]]. *)
Definition master_addr_matches (master_addr rank0_host : string) : bool :=
  str_in master_addr rank0_host || str_in rank0_host master_addr.

(** The block under [if rank == 0:] of [check_topology]: the dictionary
    it fills and the lines it prints. *)
Definition rank0_report (hostnames : list string) (env : gmap string string)
  : result (results * list line) :=
  let master_addr := environ_get env "MASTER_ADDR" "NOT SET" in
  let master_port := environ_get env "MASTER_PORT" "NOT SET" in
  let slurm_nnodes := environ_get env "SLURM_NNODES" "1" in
  let slurm_nodelist := environ_get env "SLURM_NODELIST" "?" in
  let unique := sorted (py_set hostnames) in
  let multi := bool_decide (1 < length unique) in
  let header :=
    [UniqueHostsLine unique;
     EnvLine "SLURM_NNODES" slurm_nnodes;
     EnvLine "SLURM_NODELIST" slurm_nodelist;
     EnvLine "MASTER_ADDR" master_addr;
     EnvLine "MASTER_PORT" master_port] in
  match hostnames with
  | [] => Raise (IndexError "list index out of range")
  | rank0_host :: _ =>
      let correct := master_addr_matches master_addr rank0_host in
      let addr_line :=
        if correct then MasterAddrPassed
        else MasterAddrFailed master_addr rank0_host in
      let verdict :=
        if multi then [MultiNodePassed (length unique)]
        else [SingleNodeWarning; CrossNodeNotTested] in
      Ret ({| unique_hosts := length unique;
              res_hostnames := unique;
              is_multi_node := multi;
              master_addr := master_addr;
              master_addr_correct := correct |},
           header ++ [addr_line] ++ verdict)
  end.

(** [check_topology] after the barrier loop: [None] is the empty
    dictionary every rank but 0 returns. *)
Definition check_topology (rank : nat) (rank_hosts : list string)
    (env : gmap string string) : result (option results * list line) :=
  if decide (rank = 0) then
    bind (rank0_report (gathered_hostnames rank_hosts) env)
         (fun '(r, out) => Ret (Some r, out))
  else Ret (None, []).

(** *** The staggered self-report

    Every rank runs [for r in range(world_size): if rank == r: print(...);
    dist.barrier()].  A rank is either at the head of iteration [r] or
    blocked in the barrier that ends it; [dist.barrier()] lets a rank go
    once every rank has entered that barrier. *)

Inductive pc :=
| AtLoopHead (r : nat)
| AtBarrier (r : nat).

Definition pos (c : pc) : nat :=
  match c with
  | AtLoopHead r => 2 * r
  | AtBarrier r => 2 * r + 1
  end.

Inductive event :=
| Printed (rank : nat)
| Crossed (rank iteration : nat).

Record cluster := { pcs : list pc; log : list event }.

Definition init (world_size : nat) : cluster :=
  {| pcs := replicate world_size (AtLoopHead 0); log := [] |}.

(** One move of rank [p], [None] when it cannot move: it is blocked in
    a barrier some rank has not entered yet, or its loop is over. *)
Definition step (c : cluster) (p : nat) : option cluster :=
  match pcs c !! p with
  | Some (AtLoopHead r) =>
      if decide (r < length (pcs c)) then
        Some {| pcs := <[p := AtBarrier r]> (pcs c);
                log := log c ++ (if decide (p = r) then [Printed p] else []) |}
      else None
  | Some (AtBarrier r) =>
      if forallb (fun q => (2 * r + 1 <=? pos q)%nat) (pcs c) then
        Some {| pcs := <[p := AtLoopHead (S r)]> (pcs c);
                log := log c ++ [Crossed p r] |}
      else None
  | None => None
  end.

(** A schedule names the rank that moves next. *)
Fixpoint exec (c : cluster) (schedule : list nat) : option cluster :=
  match schedule with
  | [] => Some c
  | p :: rest =>
      match step c p with
      | Some c' => exec c' rest
      | None => None
      end
  end.

(** The order the barrier is there for: in a log, whatever precedes the
    line of rank [r] holds, for every lower rank [s], the line of [s] and
    after it a barrier crossing by [r]. *)
Definition staggered (l : list event) : Prop :=
  forall l1 r l2 s, l = l1 ++ Printed r :: l2 -> s < r ->
  exists a b k d, l1 = a ++ Printed s :: b ++ Crossed r k :: d.

(** What holds of every cluster the loop can reach. *)
Record inv (c : cluster) : Prop := {
  inv_printed : forall s pc_s, pcs c !! s = Some pc_s -> 2 * s + 1 <= pos pc_s ->
                Printed s ∈ log c;
  inv_crossed : forall p pc_p k, pcs c !! p = Some pc_p -> 2 * k + 2 <= pos pc_p ->
                Crossed p k ∈ log c;
  inv_barrier : forall p k l1 l2, log c = l1 ++ Crossed p k :: l2 ->
                forall s, s <= k -> s < length (pcs c) -> Printed s ∈ l1;
  inv_staggered : staggered (log c)
}.

(** The ranks whose line is in the log, in the order of the lines. *)
Fixpoint printed_ranks (l : list event) : list nat :=
  match l with
  | [] => []
  | Printed r :: l' => r :: printed_ranks l'
  | Crossed _ _ :: l' => printed_ranks l'
  end.

(** Every rank has left the loop. *)
Definition finished (c : cluster) : Prop :=
  Forall (fun q => q = AtLoopHead (length (pcs c))) (pcs c).

(** What the barrier keeps true of the positions of the ranks and of
    the lines printed so far. *)
Record order_inv (c : cluster) : Prop := {
  oi_skew : forall p q pc_p pc_q r,
    pcs c !! p = Some pc_p -> pcs c !! q = Some pc_q ->
    2 * r + 2 <= pos pc_p -> 2 * r + 1 <= pos pc_q;
  oi_bound : forall p pc_p,
    pcs c !! p = Some pc_p -> pos pc_p <= 2 * length (pcs c);
  oi_printed : exists k, k <= length (pcs c) /\
    printed_ranks (log c) = seq 0 k /\
    forall s pc_s, pcs c !! s = Some pc_s -> (2 * s + 1 <= pos pc_s <-> s < k)
}.

(** *** [check_env_vars] *)

Definition multi_node_vars : list string :=
  ["MASTER_ADDR"; "MASTER_PORT"; "NODE_RANK"; "RANK"; "WORLD_SIZE";
   "LOCAL_RANK"; "SLURM_NNODES"; "SLURM_NODELIST"; "SLURM_PROCID";
   "SLURM_JOB_ID"].

Definition infra_vars : list string :=
  ["RV_CHECKPOINT_DIR"; "HF_HOME"; "UV_CACHE_DIR"; "OMP_NUM_THREADS";
   "NCCL_IB_DISABLE"; "NCCL_NET_GDR_LEVEL"].

(** A printed line: a section title, or a variable with its value and
    whether it is marked OK (as opposed to MISSING). *)
Inductive env_line :=
| SectionTitle (title : string)
| VarStatus (name value : string) (ok : bool).

Definition var_status (env : gmap string string) (var : string) : env_line :=
  let val := environ_get env var "NOT SET" in
  VarStatus var val (negb (String.eqb val "NOT SET")).

Definition check_env_vars (rank : nat) (env : gmap string string)
  : list env_line :=
  if decide (rank = 0) then
    SectionTitle "[Multi-Node Vars]" :: map (var_status env) multi_node_vars
    ++ SectionTitle "[Infrastructure Vars]" :: map (var_status env) infra_vars
  else [].

(** *** The summary of [main] *)

(** The lines of the summary, by content. *)
Inductive summary_line :=
| Separator
| ResultsTitle
| WorldSizeLine (world_size : nat)
| MultiNodeLine (yes : bool)
| MasterAddrLine (passed : bool)
| AllReduceLine (passed : bool)
| BandwidthLine (bandwidth : Q)
| DdpTrainingPassed
| GradientSyncPassed
| CheckpointPassed
| SingleNodeNote.

(** The block under the last [if rank == 0:] of [main].  [topology] is
    what [check_topology] returned, [None] standing for the empty
    dictionary; [nccl_ok] and [bandwidth] come from the two NCCL
    tests. *)
Definition summary (rank world_size : nat) (topology : option results)
    (nccl_ok : bool) (bandwidth : Q) : list summary_line :=
  if decide (rank = 0) then
    let is_multi := from_option is_multi_node false topology in
    [Separator; ResultsTitle; Separator;
     WorldSizeLine world_size;
     MultiNodeLine is_multi;
     MasterAddrLine (from_option master_addr_correct false topology);
     AllReduceLine nccl_ok;
     BandwidthLine bandwidth;
     DdpTrainingPassed;
     GradientSyncPassed;
     CheckpointPassed]
    ++ (if is_multi then [] else [SingleNodeNote])
  else [].

End Topology.

(** ** long_train.py: a segment of a resumable job *)

Module Segment.

Inductive signal := SIGUSR1 | SIGTERM.

(** Signal numbers on Linux. *)
Definition signum (s : signal) : Z :=
  match s with
  | SIGUSR1 => 10
  | SIGTERM => 15
  end.

(** The module level variables of the script. *)
Record segment := {
  total_elapsed : Z;
  total_requested : Z;
  segment_start : Q
}.

Definition start (env : gmap string string) (now : Q) : result segment :=
  bind (int (environ_get env "RV_TOTAL_ELAPSED" "0")) (fun elapsed =>
  bind (int (environ_get env "RV_TOTAL_REQUESTED" "600")) (fun requested =>
  Ret {| total_elapsed := elapsed; total_requested := requested;
         segment_start := now |})).

(** The two lines of the handler, by content: the numbers are the ones
    the [.0f] fields show. *)
Inductive line :=
| ReceivedSignal (signum : Z) (segment_seconds : Z)
| TotalElapsed (total_seconds : Z) (requested : Z).

(** Standard output: the lines written so far, or a stream that was
    closed, on which [print] raises. *)
Inductive stream :=
| Open (written : list line)
| Closed.

Definition print (out : stream) (l : line) : result stream :=
  match out with
  | Open written => Ret (Open (written ++ [l]))
  | Closed => Raise (ValueError "I/O operation on closed file.")
  end.


(** The numbers the handler computes. *)
Definition segment_elapsed (seg : segment) (now : Q) : Q :=
  (now - segment_start seg)%Q.


(** [handle_signal(signum, frame)], run at clock reading [now]: the
    state of standard output it leaves and the exception it ends with. *)
Definition handle_signal (seg : segment) (sig : Z) (now : Q) (out : stream)
  : stream * exn :=
  let elapsed := segment_elapsed seg now in
  match print out (ReceivedSignal sig (round_half_even elapsed)) with
  | Raise e => (out, e)
  | Ret out1 =>
      match print out1 (TotalElapsed
                (round_half_even (inject_Z (total_elapsed seg) + elapsed))
                (total_requested seg)) with
      | Raise e => (out1, e)
      | Ret out2 => (out2, SystemExit 1)
      end
  end.

(** The process once both [signal.signal] calls are done. *)
Inductive process :=
| Running (out : stream)
| Exited (status : Z) (out : stream).

(** Delivery of [s] at clock reading [now].  The handler runs between two
    bytecodes of the main loop, which catches nothing: whatever the
    handler raises ends the interpreter. *)
Definition deliver (seg : segment) (p : process) (s : signal) (now : Q)
  : process :=
  match p with
  | Running out =>
      let '(out', e) := handle_signal seg (signum s) now out in
      Exited (exit_status (Raise e : result unit)) out'
  | Exited status out => Exited status out
  end.



End Segment.

(** ** long_train.py: the whole script

    The segment from its first line to its exit.  A signal, if one
    comes, is taken to arrive once the loop has started: while the
    process sleeps in iteration [i], or after that sleep has returned
    and before the progress line of the iteration is printed. *)

Module LongTrain.

Import Segment.

(** What the script writes to standard output, by content. *)
Inductive out_line :=
| StartingSegment (prior requested : Z)
| CheckpointDir (dir : string)
| JobEndTime (end_time : string)
| Working (segment_seconds total_seconds : Z)
| FromHandler (l : Segment.line).

Inductive stdout :=
| Stdout (written : list out_line)
| StdoutClosed.

Definition print (out : stdout) (l : out_line) : result stdout :=
  match out with
  | Stdout written => Ret (Stdout (written ++ [l]))
  | StdoutClosed => Raise (ValueError "I/O operation on closed file.")
  end.

(** [handle_signal] run on the standard output of the script. *)
Definition run_handler (seg : segment) (s : signal) (now : Q) (out : stdout)
  : stdout * exn :=
  match out with
  | Stdout written =>
      let '(out', e) := handle_signal seg (signum s) now (Open []) in
      (match out' with
       | Open ls => Stdout (written ++ map FromHandler ls)
       | Closed => StdoutClosed
       end, e)
  | StdoutClosed =>
      let '(_, e) := handle_signal seg (signum s) now Closed in
      (StdoutClosed, e)
  end.

(** Where the main loop is when the signal is handled. *)
Inductive point :=
| InSleep (i : nat)
| AfterSleep (i : nat).

Definition iteration (pt : point) : nat :=
  match pt with
  | InSleep i => i
  | AfterSleep i => i
  end.

Definition point_eqb (a b : point) : bool :=
  match a, b with
  | InSleep i, InSleep j => (i =? j)%nat
  | AfterSleep i, AfterSleep j => (i =? j)%nat
  | _, _ => false
  end.

(** A signal, the point of the loop it is handled at and the clock
    reading the handler gets from [time.time()]. *)
Record arrival := {
  arr_point : point;
  arr_signal : signal;
  arr_now : Q
}.

Definition due (arr : option arrival) (pt : point) : option arrival :=
  match arr with
  | Some a => if point_eqb (arr_point a) pt then Some a else None
  | None => None
  end.

(** The line of [if i % 60 == 0: print(...)]. *)
Definition progress_line (seg : segment) (i : nat) : out_line :=
  Working (Z.of_nat i) (total_elapsed seg + Z.of_nat i).

(** [for i in range(...)]: [fuel] iterations are left and the next one
    has index [i].  The handler ends in an exception nothing catches,
    and so ends the loop. *)
Fixpoint work_loop (seg : segment) (arr : option arrival) (fuel i : nat)
    (out : stdout) : stdout * result unit :=
  match fuel with
  | 0 => (out, Ret tt)
  | S fuel' =>
      match due arr (InSleep i) with
      | Some a =>
          let '(out', e) := run_handler seg (arr_signal a) (arr_now a) out in
          (out', Raise e)
      | None =>
          match due arr (AfterSleep i) with
          | Some a =>
              let '(out', e) := run_handler seg (arr_signal a) (arr_now a) out in
              (out', Raise e)
          | None =>
              if (i mod 60 =? 0)%nat then
                match print out (progress_line seg i) with
                | Raise e => (out, Raise e)
                | Ret out' => work_loop seg arr fuel' (S i) out'
                end
              else work_loop seg arr fuel' (S i) out
          end
      end
  end.

(** The script, started at clock reading [now]: what standard output
    holds at the end and how the main module finishes. *)
Definition script (env : gmap string string) (now : Q) (arr : option arrival)
    (out : stdout) : stdout * result unit :=
  match start env now with
  | Raise e => (out, Raise e)
  | Ret seg =>
      match print out (StartingSegment (total_elapsed seg) (total_requested seg)) with
      | Raise e => (out, Raise e)
      | Ret out1 =>
          match print out1 (CheckpointDir
                              (environ_get env "RV_CHECKPOINT_DIR" "not set")) with
          | Raise e => (out1, Raise e)
          | Ret out2 =>
              match print out2 (JobEndTime
                                  (environ_get env "SLURM_JOB_END_TIME" "not set")) with
              | Raise e => (out2, Raise e)
              | Ret out3 => work_loop seg arr 3600 0 out3
              end
          end
      end
  end.

(** The three lines printed before the loop. *)
Definition startup_lines (env : gmap string string) (seg : segment)
  : list out_line :=
  [StartingSegment (total_elapsed seg) (total_requested seg);
   CheckpointDir (environ_get env "RV_CHECKPOINT_DIR" "not set");
   JobEndTime (environ_get env "SLURM_JOB_END_TIME" "not set")].

End LongTrain.

(** * Properties *)

(** ** Strings and clock readings *)

Section PyFacts.

Lemma Qltb_lt (x y : Q) : Qltb x y = true <-> (x < y)%Q.
Proof. unfold Qltb, Qlt. apply Z.ltb_lt. Qed.

Lemma Qltb_ge (x y : Q) : Qltb x y = false <-> (y <= x)%Q.
Proof. unfold Qltb, Qle. rewrite Z.ltb_ge. reflexivity. Qed.


Lemma rstrip_last (s : string) (b : ascii) :
  last_char s = Some b -> isspace b = false -> rstrip s = s.
Proof.
  induction s as [|c s IH]; intros Hlast Hb; [discriminate|].
  destruct s as [|c' s'].
  - simpl in *. injection Hlast as ->. rewrite Hb. reflexivity.
  - change (last_char (String c (String c' s'))) with (last_char (String c' s')) in Hlast.
    specialize (IH Hlast Hb).
    change (rstrip (String c (String c' s'))) with
      (match rstrip (String c' s') with
       | EmptyString => if isspace c then EmptyString else String c EmptyString
       | r => String c r
       end).
    rewrite IH. reflexivity.
Qed.

Lemma strip_edge_clean (s : string) : edge_clean s = true -> strip s = s.
Proof.
  unfold edge_clean, strip. destruct s as [|a s]; [discriminate|].
  cbn [first_char]. destruct (last_char (String a s)) as [b|] eqn:Hlast; [|discriminate].
  intros [Ha Hb]%andb_true_iff.
  apply negb_true_iff in Ha. apply negb_true_iff in Hb.
  cbn [lstrip]. rewrite Ha. eapply rstrip_last; eassumption.
Qed.

Lemma universal_newlines_no_cr (s : string) :
  contains_char CR s = false -> universal_newlines s = s.
Proof.
  induction s as [|c s IH]; [reflexivity|].
  cbn [contains_char]. intros [Hc Hs]%orb_false_iff.
  cbn [universal_newlines]. rewrite Hc. f_equal. auto.
Qed.

End PyFacts.

(** ** The shared record files *)

Section StoreFacts.

Import Coordinator.

Lemma path_exists_write (fs : FS) (path content : string) :
  path_exists (write_file fs path content) path = true.
Proof.
  unfold path_exists, write_file, flush_close, open_w.
  apply bool_decide_eq_true. rewrite lookup_insert_eq. eauto.
Qed.

Lemma read_text_write (fs : FS) (path content : string) :
  read_text (write_file fs path content) path = Ret (universal_newlines content).
Proof.
  unfold read_text, write_file, flush_close, open_w.
  rewrite lookup_insert_eq. reflexivity.
Qed.

(** What one polling pass finds once [write_file] is over. *)
Lemma poll_attempt_write (fs : FS) (path content : string) :
  poll_attempt (write_file fs path content) (write_file fs path content) path =
  Ret (let c := strip (universal_newlines content) in
       if truthy c then Some c else None).
Proof.
  unfold poll_attempt. rewrite path_exists_write, read_text_write. simpl.
  destruct (truthy _); reflexivity.
Qed.




Lemma poll_loop_continue (fuel : nat) (fs_at : Q -> FS) (path : string)
    (deadline interval now : Q) :
  (now < deadline)%Q -> (0 <= interval)%Q ->
  poll_attempt (fs_at now) (fs_at now) path = Ret None ->
  poll_loop (S fuel) fs_at path deadline interval now =
  poll_loop fuel fs_at path deadline interval (now + interval)%Q.
Proof.
  intros Hlt Hint Ha. cbn [poll_loop].
  apply Qltb_lt in Hlt. rewrite Hlt, Ha.
  unfold sleep. apply Qltb_ge in Hint. rewrite Hint. reflexivity.
Qed.


(** A polling pass that overlaps one [write_file(path, content)], with
    the statements of both scripts as the unit of interleaving.  The
    writer has two effects, the truncating [open] and the flush when the
    [with] block is left; the reader looks at the directory twice, at
    [os.path.exists] and at [open(path).read()].  Wherever these two
    looks fall among the states of the writer, the pass finds nothing,
    or what a pass before the write finds, or what a pass after it
    finds: the empty file left by the truncation is hidden by the test
    [if content].  Nothing is said here about reads and writes that the
    operating system splits. *)
Lemma write_file_seen_whole (fs : FS) (path content : string)
    (i j : nat) (fs_seen fs_read : FS) :
  write_file_states fs path content !! i = Some fs_seen ->
  write_file_states fs path content !! j = Some fs_read ->
  i <= j ->
  poll_attempt fs_seen fs_read path = Ret None \/
  poll_attempt fs_seen fs_read path = poll_attempt fs fs path \/
  poll_attempt fs_seen fs_read path =
    poll_attempt (write_file fs path content) (write_file fs path content) path.
Proof.
  intros Hi Hj Hle. unfold write_file_states in Hi, Hj.
  assert (Hempty : forall s : FS, poll_attempt s (open_w fs path) path = Ret None).
  { intros s. unfold poll_attempt, read_text, open_w.
    rewrite lookup_insert_eq. destruct (path_exists s path); reflexivity. }
  assert (Hnew : forall s : FS, path_exists s path = true ->
            poll_attempt s (write_file fs path content) path =
            poll_attempt (write_file fs path content)
                         (write_file fs path content) path).
  { intros s Hs. unfold poll_attempt. rewrite Hs, path_exists_write. reflexivity. }
  assert (Hopen : path_exists (open_w fs path) path = true).
  { unfold path_exists, open_w. apply bool_decide_eq_true.
    rewrite lookup_insert_eq. eauto. }
  destruct i as [|[|[|i]]]; cbn in Hi; try discriminate; injection Hi as <-;
    (destruct j as [|[|[|j]]]; cbn in Hj; try discriminate; injection Hj as <-);
    try lia; auto.
  destruct (path_exists fs path) eqn:Hex.
  - right; right. apply (Hnew fs Hex).
  - left. unfold poll_attempt. rewrite Hex. reflexivity.
Qed.

End StoreFacts.

Section StoreClaims.

Import Coordinator.









(** C10: with [SLURM_PROCID] missing from the environment the rank is
    read from the default "0" and is 0; whenever the module level code
    gets through, the entry point calls [run_head]; in no environment
    without [SLURM_PROCID] does it call [run_worker]. *)
Theorem C10_unset_procid_is_head (env : gmap string string) :
  env !! "SLURM_PROCID" = None ->
  int (environ_get env "SLURM_PROCID" "0") = Ret 0%Z /\
  (forall cfg, module_init env = Ret cfg ->
               SLURM_PROCID cfg = 0%Z /\ entry_point cfg = Head) /\
  main_role env <> Ret Worker /\
  (forall gpus, int (environ_get env "SLURM_GPUS_ON_NODE" "2") = Ret gpus ->
                main_role env = Ret Head).
Proof.
  intros Hunset.
  assert (Hrank : int (environ_get env "SLURM_PROCID" "0") = Ret 0%Z).
  { unfold environ_get. rewrite Hunset. reflexivity. }
  split; [exact Hrank|].
  unfold main_role, module_init. rewrite Hrank. cbn [bind].
  destruct (int (environ_get env "SLURM_GPUS_ON_NODE" "2")) as [g|e]; cbn [bind].
  - split; [|split].
    + intros cfg [= <-]. split; reflexivity.
    + discriminate.
    + reflexivity.
  - split; [|split]; discriminate.
Qed.

Lemma C10_unset_procid_is_head_witness : main_role ∅ = Ret Head.
Proof.
  destruct (C10_unset_procid_is_head ∅) as (_ & _ & _ & H); [reflexivity|].
  apply (H 2%Z). reflexivity.
Defined.

End StoreClaims.

(** ** The topology check *)

Section TopologyFacts.

Import Topology Coordinator.

Lemma length_sorted (s : gset string) : length (sorted s) = size s.
Proof.
  unfold sorted. rewrite (Permutation_length (merge_sort_Permutation _ _)).
  reflexivity.
Qed.

Lemma py_set_sorted (s : gset string) : py_set (sorted s) = s.
Proof.
  unfold py_set, sorted. apply set_eq. intros x.
  rewrite elem_of_list_to_set, merge_sort_Permutation, elem_of_elements.
  reflexivity.
Qed.

Lemma size_py_set_same (h0 : string) (rest : list string) :
  (forall h, h ∈ rest -> h = h0) -> size (py_set (h0 :: rest)) = 1.
Proof.
  intros Hall. replace (py_set (h0 :: rest)) with ({[ h0 ]} : gset string).
  - apply size_singleton.
  - unfold py_set. apply set_eq. intros x.
    rewrite elem_of_list_to_set, elem_of_cons, elem_of_singleton.
    split; [auto|]. intros [->| ->%Hall]; reflexivity.
Qed.

Lemma size_py_set_distinct (hostnames hosts : list string) :
  NoDup hosts -> (forall h, h ∈ hostnames <-> h ∈ hosts) ->
  size (py_set hostnames) = length hosts.
Proof.
  intros Hnd Hsame. rewrite <- (size_list_to_set (C := gset string) hosts Hnd).
  f_equal. unfold py_set. apply set_eq. intros x.
  rewrite !elem_of_list_to_set. apply Hsame.
Qed.

Lemma prefix_spec (a b : string) :
  String.prefix a b = true <-> exists post, b = a +:+ post.
Proof.
  revert b. induction a as [|c a IH]; intros b.
  - destruct b; simpl; split; eauto.
  - destruct b as [|c' b]; simpl.
    + split; [discriminate|intros [? ?]; discriminate].
    + destruct (ascii_dec c c') as [->|Hne].
      * rewrite IH. split; intros [post H]; exists post.
        -- rewrite H. reflexivity.
        -- change (String c' a +:+ post) with (String c' (a +:+ post)) in H.
           congruence.
      * split; [discriminate|]. intros [post H].
        change (String c a +:+ post) with (String c (a +:+ post)) in H.
        congruence.
Qed.

Lemma str_in_spec (a b : string) :
  str_in a b = true <-> exists pre post, b = pre +:+ a +:+ post.
Proof.
  induction b as [|c b IH].
  - cbn [str_in]. rewrite orb_false_r, prefix_spec. split.
    + intros [post H]. exists "", post. exact H.
    + intros (pre & post & H). destruct pre; [eauto|discriminate].
  - cbn [str_in]. rewrite orb_true_iff, prefix_spec, IH. split.
    + intros [[post H]|(pre & post & H)].
      * exists "", post. exact H.
      * exists (String c pre), post. rewrite H. reflexivity.
    + intros ([|c' pre] & post & H).
      * left. eauto.
      * right. change (String c' pre +:+ a +:+ post)
          with (String c' (pre +:+ a +:+ post)) in H.
        injection H as -> ->. eauto.
Qed.

Lemma take_bytes_all (n : nat) (s : string) :
  String.length s <= n -> take_bytes n s = s.
Proof.
  revert n. induction s as [|c s IH]; intros [|n] Hn; simpl in *;
    try reflexivity; try lia.
  f_equal. apply IH. lia.
Qed.

Lemma rstrip_nul_zeros (n : nat) (s : string) :
  rstrip_nul (s +:+ zeros n) = rstrip_nul s.
Proof.
  induction s as [|c s IH].
  - change ("" +:+ zeros n) with (zeros n).
    induction n as [|n IHn]; [reflexivity|].
    cbn [zeros rstrip_nul]. rewrite IHn. reflexivity.
  - change (String c s +:+ zeros n) with (String c (s +:+ zeros n)).
    cbn [rstrip_nul]. rewrite IH. reflexivity.
Qed.

Lemma rstrip_nul_last (s : string) (b : ascii) :
  last_char s = Some b -> b <> NUL -> rstrip_nul s = s.
Proof.
  induction s as [|c s IH]; intros Hlast Hb; [discriminate|].
  destruct s as [|c' s'].
  - simpl in *. injection Hlast as ->.
    destruct (Ascii.eqb_spec b NUL); [contradiction|reflexivity].
  - change (last_char (String c (String c' s'))) with (last_char (String c' s')) in Hlast.
    specialize (IH Hlast Hb).
    change (rstrip_nul (String c (String c' s'))) with
      (match rstrip_nul (String c' s') with
       | EmptyString => if Ascii.eqb c NUL then EmptyString else String c EmptyString
       | r => String c r
       end).
    rewrite IH. reflexivity.
Qed.

(** A host name of at most 256 bytes that does not end in a zero byte
    comes out of the gather as it went in. *)
Lemma gathered_hostname_same (h : string) (b : ascii) :
  String.length h <= 256 -> last_char h = Some b -> b <> NUL ->
  rstrip_nul (hostname_tensor h) = h.
Proof.
  intros Hlen Hlast Hb. unfold hostname_tensor.
  rewrite take_bytes_all by assumption.
  rewrite rstrip_nul_zeros. eapply rstrip_nul_last; eassumption.
Qed.

(** Ranks other than 0 return the empty dictionary and print nothing
    after the barrier loop. *)
Lemma check_topology_other_rank (rank : nat) (rank_hosts : list string)
    (env : gmap string string) :
  rank <> 0 -> check_topology rank rank_hosts env = Ret (None, []).
Proof. intros H. unfold check_topology. destruct (decide (rank = 0)); [contradiction|reflexivity]. Qed.

(** [run_head] draws its verdict from the number of distinct names of
    the live nodes. *)
Lemma head_is_multi_node_spec (nodes : list ray_node) :
  head_is_multi_node nodes =
  bool_decide (1 < size (py_set (map (fun n => default "unknown" (NodeName n))
                                     (filter (fun n => Is_true (Alive n)) nodes)))).
Proof. unfold head_is_multi_node, node_hostnames. rewrite py_set_sorted. reflexivity. Qed.

Lemma snoc_split {A} (l l1 l2 : list A) (e x : A) :
  l ++ [e] = l1 ++ x :: l2 ->
  (l2 = [] /\ x = e /\ l1 = l) \/
  (exists l2', l2 = l2' ++ [e] /\ l = l1 ++ x :: l2').
Proof.
  destruct l2 as [|y l2' _] using rev_ind; intros H.
  - left. apply app_inj_tail in H as [-> ->]. auto.
  - right. exists l2'. rewrite app_comm_cons, app_assoc in H.
    apply app_inj_tail in H as [-> ->]. auto.
Qed.

Lemma inv_init ws : inv (init ws).
Proof.
  split; simpl.
  - intros s pc_s [-> _]%lookup_replicate. simpl. lia.
  - intros p pc_p k [-> _]%lookup_replicate. simpl. lia.
  - intros p k [|? ?] l2 H; discriminate.
  - intros [|? ?] r l2 s H; discriminate.
Qed.

Lemma inv_step c p c' : inv c -> step c p = Some c' -> inv c'.
Proof.
  intros [I1 I2 I3 I4]. unfold step.
  destruct (pcs c !! p) as [[r|r]|] eqn:Hp; [| |discriminate].
  - (* the loop body of iteration r *)
    destruct (decide (r < length (pcs c))) as [Hr|]; [|discriminate].
    intros [= <-]. pose proof (lookup_lt_Some _ _ _ Hp) as Hlen.
    split; cbn [pcs log].
    + intros s pc_s Hs Hpos. destruct (decide (s = p)) as [->|Hne].
      * rewrite list_lookup_insert_eq in Hs by assumption. injection Hs as <-.
        simpl in Hpos. destruct (decide (p = r)) as [->|Hpr].
        -- set_solver.
        -- apply elem_of_app. left. apply (I1 p _ Hp). simpl. lia.
      * rewrite list_lookup_insert_ne in Hs by congruence.
        apply elem_of_app. left. eauto.
    + intros q pc_q k Hq Hpos. apply elem_of_app. left.
      destruct (decide (q = p)) as [->|Hne].
      * rewrite list_lookup_insert_eq in Hq by assumption. injection Hq as <-.
        simpl in Hpos. apply (I2 p _ k Hp). simpl. lia.
      * rewrite list_lookup_insert_ne in Hq by congruence. eauto.
    + rewrite length_insert. intros q k l1 l2 Hlog s Hs Hws.
      destruct (decide (p = r)) as [->|Hpr].
      * apply snoc_split in Hlog as [(_ & [=] & _)|(l2' & -> & Hlog)]. eauto.
      * rewrite app_nil_r in Hlog. eauto.
    + destruct (decide (p = r)) as [->|Hpr]; [|rewrite app_nil_r; exact I4].
      intros l1 r' l2 s Hlog Hs.
      apply snoc_split in Hlog as [(_ & [= ->] & ->)|(l2' & -> & Hlog)]; [|eauto].
      assert (Hc : Crossed r (r - 1) ∈ log c).
      { apply (I2 r _ (r - 1) Hp). simpl. lia. }
      apply list_elem_of_split in Hc as (l1' & l2' & Hlog).
      assert (Hps : Printed s ∈ l1') by (apply (I3 _ _ _ _ Hlog); lia).
      apply list_elem_of_split in Hps as (a & b & ->).
      exists a, b, (r - 1), l2'. rewrite Hlog, <- app_assoc. reflexivity.
  - (* leaving the barrier of iteration r *)
    destruct (forallb _ (pcs c)) eqn:Hall; [|discriminate].
    intros [= <-]. pose proof (lookup_lt_Some _ _ _ Hp) as Hlen.
    rewrite forallb_forall in Hall.
    split; cbn [pcs log].
    + intros s pc_s Hs Hpos. apply elem_of_app. left.
      destruct (decide (s = p)) as [->|Hne].
      * rewrite list_lookup_insert_eq in Hs by assumption. injection Hs as <-.
        simpl in Hpos. apply (I1 p _ Hp). simpl. lia.
      * rewrite list_lookup_insert_ne in Hs by congruence. eauto.
    + intros q pc_q k Hq Hpos. destruct (decide (q = p)) as [->|Hne].
      * rewrite list_lookup_insert_eq in Hq by assumption. injection Hq as <-.
        simpl in Hpos. destruct (decide (k = r)) as [->|Hkr].
        -- set_solver.
        -- apply elem_of_app. left. apply (I2 p _ k Hp). simpl. lia.
      * rewrite list_lookup_insert_ne in Hq by congruence.
        apply elem_of_app. left. eauto.
    + rewrite length_insert. intros q k l1 l2 Hlog s Hs Hws.
      apply snoc_split in Hlog as [(_ & [= -> ->] & ->)|(l2' & -> & Hlog)]; [|eauto].
      destruct (lookup_lt_is_Some_2 (pcs c) s Hws) as [pc_s Hpcs].
      apply (I1 s pc_s Hpcs).
      assert (Hin : In pc_s (pcs c)).
      { apply list_elem_of_In. eapply list_elem_of_lookup_2. eassumption. }
      apply Hall in Hin. apply Nat.leb_le in Hin. lia.
    + intros l1 r' l2 s Hlog Hs.
      apply snoc_split in Hlog as [(_ & [=] & _)|(l2' & -> & Hlog)]. eauto.
Qed.

Lemma inv_exec schedule : forall c c', inv c -> exec c schedule = Some c' -> inv c'.
Proof.
  induction schedule as [|p rest IH]; intros c c' Hinv; cbn [exec].
  - intros [= <-]. exact Hinv.
  - destruct (step c p) as [c1|] eqn:Hstep; [|discriminate].
    apply IH. eapply inv_step; eassumption.
Qed.

End TopologyFacts.

Section TopologyClaims.

Import Topology Coordinator.

(** C5: on a gathered list of host names that is not empty, rank 0
    returns normally, and its host count is the number of elements of the
    set of the names; the run is declared multi-node exactly when that
    count exceeds 1.  When all names are the same the count is 1, the
    verdict is single-node, and the report carries the warning line
    (nothing is raised).  When the names are those of N/2 distinct hosts,
    N being the length of the list, the count is N/2. *)
Theorem C5_host_count (hostnames : list string) (env : gmap string string) :
  hostnames <> [] ->
  exists r out, rank0_report hostnames env = Ret (r, out) /\
    unique_hosts r = size (py_set hostnames) /\
    is_multi_node r = bool_decide (1 < unique_hosts r) /\
    ((forall h h', h ∈ hostnames -> h' ∈ hostnames -> h = h') ->
       unique_hosts r = 1 /\ is_multi_node r = false /\ SingleNodeWarning ∈ out) /\
    (forall hosts, NoDup hosts -> (forall h, h ∈ hostnames <-> h ∈ hosts) ->
       length hosts = length hostnames / 2 ->
       unique_hosts r = length hostnames / 2).
Proof.
  intros Hne. destruct hostnames as [|h0 rest]; [congruence|].
  unfold rank0_report. eexists _, _. split; [reflexivity|]. cbn [unique_hosts is_multi_node].
  rewrite length_sorted. split; [reflexivity|]. split; [reflexivity|]. split.
  - intros Hall.
    assert (H1 : size (py_set (h0 :: rest)) = 1).
    { apply size_py_set_same. intros h Hh. apply Hall; set_solver. }
    rewrite H1. split; [reflexivity|]. split; [reflexivity|].
    rewrite bool_decide_eq_false_2 by lia. set_solver.
  - intros hosts Hnd Hsame Hlen. rewrite <- Hlen.
    apply size_py_set_distinct; assumption.
Qed.

Lemma C5_host_count_witness :
  exists r out,
    rank0_report ["udc-an28-1"; "udc-an28-1"; "udc-an28-7"; "udc-an28-7"] ∅
      = Ret (r, out) /\
    unique_hosts r = 2 /\ is_multi_node r = true.
Proof.
  destruct (C5_host_count
              ["udc-an28-1"; "udc-an28-1"; "udc-an28-7"; "udc-an28-7"] ∅)
    as (r & out & Hrun & Hcount & Hmulti & _ & Hhalf); [discriminate|].
  exists r, out. split; [exact Hrun|].
  assert (H2 : unique_hosts r = 2).
  { apply (Hhalf ["udc-an28-1"; "udc-an28-7"]).
    - apply NoDup_cons. split; [|apply NoDup_singleton].
      intros Hin%list_elem_of_singleton. discriminate.
    - intros h. rewrite !elem_of_cons. tauto.
    - reflexivity. }
  split; [exact H2|]. rewrite Hmulti, H2. reflexivity.
Defined.

(** C6, as the code has it: the check of [MASTER_ADDR] passes exactly
    when [MASTER_ADDR] (or "NOT SET" when the variable is missing) occurs
    inside the host name gathered from rank 0, or that host name occurs
    inside [MASTER_ADDR].  The names of the other ranks play no part. *)
Theorem C6_master_addr_check (hostnames : list string) (env : gmap string string)
    (r : results) (out : list line) :
  rank0_report hostnames env = Ret (r, out) ->
  exists rank0_host rest, hostnames = rank0_host :: rest /\
    master_addr r = environ_get env "MASTER_ADDR" "NOT SET" /\
    (master_addr_correct r = true <->
       (exists pre post, rank0_host = pre +:+ master_addr r +:+ post) \/
       (exists pre post, master_addr r = pre +:+ rank0_host +:+ post)).
Proof.
  unfold rank0_report. destruct hostnames as [|h0 rest]; [discriminate|].
  intros [= <- _]. exists h0, rest. split; [reflexivity|]. split; [reflexivity|].
  cbn [master_addr_correct master_addr]. unfold master_addr_matches.
  rewrite orb_true_iff, !str_in_spec. reflexivity.
Qed.

Lemma C6_master_addr_check_witness :
  ~ ((exists pre post, "node1" = pre +:+ "node2" +:+ post) \/
     (exists pre post, "node2" = pre +:+ "node1" +:+ post)).
Proof.
  destruct (C6_master_addr_check ["node1"; "node2"] {[ "MASTER_ADDR" := "node2" ]}
              {| unique_hosts := 2; res_hostnames := ["node1"; "node2"];
                 is_multi_node := true; master_addr := "node2";
                 master_addr_correct := false |}
              [UniqueHostsLine ["node1"; "node2"]; EnvLine "SLURM_NNODES" "1";
               EnvLine "SLURM_NODELIST" "?"; EnvLine "MASTER_ADDR" "node2";
               EnvLine "MASTER_PORT" "NOT SET"; MasterAddrFailed "node2" "node1";
               MultiNodePassed 2])
    as (h0 & rest & Heq & _ & Hiff); [vm_compute; reflexivity|].
  injection Heq as <- _. cbn [master_addr master_addr_correct] in Hiff.
  intros H. apply Hiff in H. discriminate.
Defined.

(** C6 as stated fails: [MASTER_ADDR] is the host name reported by rank
    1, one of the gathered names, and the check still fails. *)
Lemma C6_counterexample :
  exists r out,
    rank0_report ["node1"; "node2"] {[ "MASTER_ADDR" := "node2" ]} = Ret (r, out) /\
    master_addr r ∈ ["node1"; "node2"] /\
    master_addr_correct r = false.
Proof.
  eexists _, _. split; [vm_compute; reflexivity|]. split; [|reflexivity].
  cbn [master_addr]. set_solver.
Qed.

(** C8: in every run of the self-report loop, under every schedule of
    the ranks, the line of rank [r] comes after the line of each rank
    [s < r], with a barrier crossing by [r] between the two. *)
Theorem C8_staggered_report (world_size : nat) (schedule : list nat) (c : cluster) :
  exec (init world_size) schedule = Some c -> staggered (log c).
Proof.
  intros H. apply inv_staggered. eapply inv_exec; [apply inv_init|exact H].
Qed.

Lemma C8_staggered_report_witness :
  staggered [Printed 0; Crossed 1 0; Crossed 0 0; Printed 1; Crossed 0 1; Crossed 1 1].
Proof.
  apply (C8_staggered_report 2 [1; 0; 1; 0; 1; 0; 0; 1]
           {| pcs := [AtLoopHead 2; AtLoopHead 2];
              log := [Printed 0; Crossed 1 0; Crossed 0 0; Printed 1;
                      Crossed 0 1; Crossed 1 1] |}).
  reflexivity.
Defined.

End TopologyClaims.

(** ** The resumable segment *)

Section SegmentFacts.

Import Segment.



End SegmentFacts.

Section SegmentClaims.

Import Segment.




(** Scenario C of the specification, from the environment on. *)
Example scenario_C :
  exists seg, start {[ "RV_TOTAL_ELAPSED" := "300" ]} 1000 = Ret seg /\
    deliver seg (Running (Open [])) SIGTERM 1050 =
    Exited 1 (Open [ReceivedSignal 15 50; TotalElapsed 350 600]).
Proof. eexists. split; [vm_compute; reflexivity|]. vm_compute. reflexivity. Qed.

End SegmentClaims.

(** * Further properties of the scripts *)

(** ** More on the polling loop *)

Section PollFacts.

Import Coordinator.


Lemma tick_succ (now interval : Q) (k : nat) :
  (tick now interval (S k) == tick now interval k + interval)%Q.
Proof.
  revert now. induction k as [|k IH]; intros now.
  - simpl. reflexivity.
  - change (tick now interval (S (S k)))
      with (tick (now + interval)%Q interval (S k)).
    rewrite IH. reflexivity.
Qed.

Lemma tick_mono (now interval : Q) (j k : nat) :
  (0 <= interval)%Q -> j <= k ->
  (tick now interval j <= tick now interval k)%Q.
Proof.
  intros Hi Hjk. induction Hjk as [|k Hjk IH]; [lra|].
  rewrite tick_succ. lra.
Qed.


(** The value of the first pass that finds content is the value of the
    call, returned at the instant of that pass. *)
Lemma poll_loop_first (k : nat) :
  forall (fuel : nat) (fs_at : Q -> FS) (path : string)
         (deadline interval now : Q) (v : string),
  (0 <= interval)%Q -> k < fuel ->
  (tick now interval k < deadline)%Q ->
  (forall j, j < k ->
     poll_attempt (fs_at (tick now interval j)) (fs_at (tick now interval j)) path
       = Ret None) ->
  poll_attempt (fs_at (tick now interval k)) (fs_at (tick now interval k)) path
    = Ret (Some v) ->
  poll_loop fuel fs_at path deadline interval now
    = Some (Ret v, tick now interval k).
Proof.
  induction k as [|k IH];
    intros fuel fs_at path deadline interval now v Hi Hf Hlt Hnone Hsome;
    (destruct fuel as [|fuel]; [lia|]).
  - cbn [tick] in *. cbn [poll_loop].
    apply Qltb_lt in Hlt. rewrite Hlt, Hsome. reflexivity.
  - assert (Hnow : (now < deadline)%Q).
    { pose proof (tick_mono now interval 0 (S k) Hi ltac:(lia)) as H.
      cbn [tick] in H. cbn [tick] in Hlt. lra. }
    rewrite poll_loop_continue; [|assumption|assumption|apply (Hnone 0); lia].
    apply IH; [assumption|lia|exact Hlt| |exact Hsome].
    intros j Hj. apply (Hnone (S j)). lia.
Qed.

End PollFacts.

Section CoordinatorMore.

Import Coordinator.



(** [poll_file] returns what the first successful pass finds: when the
    passes at [now], [now + interval], ... find nothing [k] times and the
    next one, still before the deadline, finds [v], the call returns [v]
    at the instant of that pass. *)
Theorem poll_file_first_content (k fuel : nat) (fs_at : Q -> FS)
    (path : string) (timeout interval now : Q) (v : string) :
  (0 <= interval)%Q -> k < fuel ->
  (tick now interval k < now + timeout)%Q ->
  (forall j, j < k ->
     poll_attempt (fs_at (tick now interval j)) (fs_at (tick now interval j)) path
       = Ret None) ->
  poll_attempt (fs_at (tick now interval k)) (fs_at (tick now interval k)) path
    = Ret (Some v) ->
  poll_file fuel fs_at path timeout interval now
    = Some (Ret v, tick now interval k).
Proof. intros. unfold poll_file. apply poll_loop_first; assumption. Qed.

Lemma poll_file_first_content_witness :
  poll_file 10 (fun t => if Qltb t 3 then ∅ else {[ "f" := "addr" ]})
            "f" 120 2 0
  = Some (Ret "addr", tick 0 2 2).
Proof.
  apply (poll_file_first_content 2 10);
    [discriminate | lia | reflexivity | | reflexivity].
  intros [|[|j]] Hj; try reflexivity. lia.
Defined.



Lemma write_file_lookup_other (fs : FS) (path other a : string) :
  other <> path -> write_file fs path a !! other = fs !! other.
Proof.
  intros Hne. unfold write_file, flush_close, open_w.
  rewrite !lookup_insert_ne by congruence. reflexivity.
Qed.

Lemma poll_attempt_write_other (fs : FS) (path other a : string) :
  other <> path ->
  poll_attempt (write_file fs path a) (write_file fs path a) other =
  poll_attempt fs fs other.
Proof.
  intros Hne. unfold poll_attempt, path_exists, read_text.
  rewrite write_file_lookup_other by assumption. reflexivity.
Qed.



Lemma length_append (s t : string) :
  String.length (s +:+ t) = String.length s + String.length t.
Proof.
  induction s as [|c s IH]; [reflexivity|].
  change (String c s +:+ t) with (String c (s +:+ t)).
  cbn [String.length]. rewrite IH. reflexivity.
Qed.

Lemma append_inj_r (s1 s2 t : string) : s1 +:+ t = s2 +:+ t -> s1 = s2.
Proof.
  revert s2. induction s1 as [|c s1 IH]; intros [|c' s2] H.
  - reflexivity.
  - apply (f_equal String.length) in H.
    rewrite !length_append in H. cbn [String.length] in H. lia.
  - apply (f_equal String.length) in H.
    rewrite !length_append in H. cbn [String.length] in H. lia.
  - change (String c (s1 +:+ t) = String c' (s2 +:+ t)) in H.
    injection H as -> H. f_equal. auto.
Qed.

Lemma last_char_append (s t : string) :
  t <> "" -> last_char (s +:+ t) = last_char t.
Proof.
  intros Ht. induction s as [|c s IH]; [reflexivity|].
  change (String c s +:+ t) with (String c (s +:+ t)).
  destruct (s +:+ t) as [|c' r] eqn:Hst.
  - apply (f_equal String.length) in Hst. rewrite length_append in Hst.
    destruct t; [contradiction|]. cbn [String.length] in Hst. lia.
  - exact IH.
Qed.

Lemma last_char_path_join (a b : string) :
  b <> "" -> last_char (path_join a b) = last_char b.
Proof.
  intros Hb. unfold path_join.
  destruct b as [|c b']; [contradiction|].
  assert (H : last_char (if truthy a && negb (String.prefix "/" (String.rev a))
                         then a +:+ "/" +:+ String c b'
                         else a +:+ String c b') = last_char (String c b')).
  { destruct (truthy a && _).
    - rewrite last_char_append by discriminate.
      apply (last_char_append "/"). discriminate.
    - apply last_char_append. discriminate. }
  destruct c as [[] [] [] [] [] [] [] []]; try exact H; reflexivity.
Qed.

Lemma addr_file_ne_done_file (job1 job2 : string) :
  ADDR_FILE job1 <> DONE_FILE job2.
Proof.
  intros H. apply (f_equal last_char) in H.
  unfold ADDR_FILE, DONE_FILE in H.
  rewrite !last_char_path_join in H.
  - rewrite !last_char_append in H by discriminate. discriminate.
  - intros E. apply (f_equal String.length) in E.
    rewrite length_append in E. cbn in E. lia.
  - intros E. apply (f_equal String.length) in E.
    rewrite length_append in E. cbn in E. lia.
Qed.

(** Where the records of a job live.  The address file and the done
    file never coincide, whatever the two job ids.  A job id that does
    not start with a slash names files directly under [SHARED_DIR], and
    different such ids name different address files. *)
Theorem record_paths (job1 job2 : string) :
  ADDR_FILE job1 <> DONE_FILE job2 /\
  (String.prefix "/" job1 = false ->
   ADDR_FILE job1 = SHARED_DIR +:+ "/" +:+ job1 +:+ ".addr" /\
   DONE_FILE job1 = SHARED_DIR +:+ "/" +:+ job1 +:+ ".done" /\
   (String.prefix "/" job2 = false ->
    ADDR_FILE job1 = ADDR_FILE job2 -> job1 = job2)).
Proof.
  split; [apply addr_file_ne_done_file|].
  assert (Hjoin : forall j sfx, String.prefix "/" j = false ->
            first_char sfx = Some "."%char ->
            path_join SHARED_DIR (j +:+ sfx) = SHARED_DIR +:+ "/" +:+ j +:+ sfx).
  { intros j sfx Hj Hsfx. unfold path_join.
    destruct j as [|c j'].
    { destruct sfx as [|d sfx']; [discriminate|].
      injection Hsfx as ->. reflexivity. }
    change (String c j' +:+ sfx) with (String c (j' +:+ sfx)).
    cbn [String.prefix] in Hj.
    destruct (ascii_dec "/" c) as [<-|Hc].
    - destruct j'; discriminate.
    - destruct c as [[] [] [] [] [] [] [] []]; try reflexivity.
      contradiction Hc. reflexivity. }
  intros H1. split; [apply Hjoin; [assumption|reflexivity]|].
  split; [apply Hjoin; [assumption|reflexivity]|].
  intros H2. unfold ADDR_FILE. rewrite !Hjoin by (assumption || reflexivity).
  intros H. apply String.app_inj in H. apply String.app_inj in H.
  apply append_inj_r in H. exact H.
Qed.

Lemma record_paths_witness :
  ADDR_FILE "42" = "/scratch/abs6bd/.rv/ray_cluster/42.addr".
Proof.
  destruct (record_paths "42" "43") as (_ & H).
  destruct H as (H & _); [reflexivity|]. rewrite H. reflexivity.
Defined.

End CoordinatorMore.

Section CoordinatorMore2.

Import Coordinator.




(** What the head leaves for the workers: once it has written a clean
    address and then "done", a polling pass on the address file still
    returns the address and a pass on the done file returns "done". *)
Theorem head_publishes (fs : FS) (job_id address : string) :
  edge_clean address = true -> contains_char CR address = false ->
  let fs' := write_file (write_file fs (ADDR_FILE job_id) address)
                        (DONE_FILE job_id) "done" in
  poll_attempt fs' fs' (ADDR_FILE job_id) = Ret (Some address) /\
  poll_attempt fs' fs' (DONE_FILE job_id) = Ret (Some "done").
Proof.
  intros Hclean Hcr fs'. unfold fs'. split.
  - rewrite poll_attempt_write_other by apply addr_file_ne_done_file.
    rewrite poll_attempt_write. cbv zeta.
    rewrite universal_newlines_no_cr, strip_edge_clean by assumption.
    destruct address; [discriminate|reflexivity].
  - rewrite poll_attempt_write. reflexivity.
Qed.

Lemma head_publishes_witness :
  let fs' := write_file (write_file ∅ (ADDR_FILE "42") "10.0.0.1:6379")
                        (DONE_FILE "42") "done" in
  poll_attempt fs' fs' (ADDR_FILE "42") = Ret (Some "10.0.0.1:6379") /\
  poll_attempt fs' fs' (DONE_FILE "42") = Ret (Some "done").
Proof. apply (head_publishes ∅ "42" "10.0.0.1:6379"); reflexivity. Defined.






End CoordinatorMore2.

Section HeadFacts.

Import Coordinator.

Lemma size_gt_1_iff (X : gset string) :
  1 < size X <-> exists x y, x ∈ X /\ y ∈ X /\ x <> y.
Proof.
  split.
  - intros Hsize. change (size X) with (length (elements X)) in Hsize.
    pose proof (NoDup_elements X) as Hnd.
    destruct (elements X) as [|x [|y l]] eqn:Hel; simpl in Hsize; try lia.
    exists x, y.
    assert (Hx : x ∈ X) by (apply elem_of_elements; rewrite Hel; apply list_elem_of_here).
    assert (Hy : y ∈ X).
    { apply elem_of_elements. rewrite Hel. apply list_elem_of_further, list_elem_of_here. }
    split; [exact Hx|]. split; [exact Hy|].
    apply NoDup_cons in Hnd as [Hnx _]. intros ->. apply Hnx. apply list_elem_of_here.
  - intros (x & y & Hx & Hy & Hne).
    destruct (size X) as [|[|n]] eqn:Hsize; [| |lia].
    + apply size_empty_inv in Hsize. exfalso.
      apply (not_elem_of_empty (C := gset string) x). apply Hsize. exact Hx.
    + exfalso. apply Hne. exact (size_singleton_inv X x y Hsize Hx Hy).
Qed.

Lemma head_multi_node_char (nodes : list ray_node) :
  head_is_multi_node nodes = true <->
  exists n1 n2, n1 ∈ nodes /\ n2 ∈ nodes /\
    Alive n1 = true /\ Alive n2 = true /\
    default "unknown" (NodeName n1) <> default "unknown" (NodeName n2).
Proof.
  rewrite head_is_multi_node_spec, bool_decide_eq_true, size_gt_1_iff.
  unfold py_set. split.
  - intros (x & y & Hx & Hy & Hne).
    apply elem_of_list_to_set, list_elem_of_fmap in Hx as (n1 & -> & H1).
    apply elem_of_list_to_set, list_elem_of_fmap in Hy as (n2 & -> & H2).
    apply list_elem_of_filter in H1 as [Ha1 H1].
    apply list_elem_of_filter in H2 as [Ha2 H2].
    exists n1, n2. repeat split; try assumption.
    + apply Is_true_true. exact Ha1.
    + apply Is_true_true. exact Ha2.
  - intros (n1 & n2 & H1 & H2 & Ha1 & Ha2 & Hne).
    exists (default "unknown" (NodeName n1)), (default "unknown" (NodeName n2)).
    repeat split; try assumption.
    + apply elem_of_list_to_set, list_elem_of_fmap. exists n1. split; [reflexivity|].
      apply list_elem_of_filter. split; [apply Is_true_true; exact Ha1|exact H1].
    + apply elem_of_list_to_set, list_elem_of_fmap. exists n2. split; [reflexivity|].
      apply list_elem_of_filter. split; [apply Is_true_true; exact Ha2|exact H2].
Qed.

(** [run_head] calls the cluster multi-node exactly when two live
    entries of [ray.nodes()] carry different names, an entry without
    [NodeName] counting as "unknown"; dead entries play no part. *)
Theorem head_multi_node_iff (nodes : list ray_node) :
  head_is_multi_node nodes = true <->
  exists n1 n2, n1 ∈ nodes /\ n2 ∈ nodes /\
    Alive n1 = true /\ Alive n2 = true /\
    default "unknown" (NodeName n1) <> default "unknown" (NodeName n2).
Proof. apply head_multi_node_char. Qed.




End HeadFacts.

(** ** More on the topology check *)

Section TopologyMore.

Import Topology.

Lemma length_take_bytes (n : nat) (s : string) :
  String.length (take_bytes n s) = Nat.min n (String.length s).
Proof.
  revert s. induction n as [|n IH]; intros [|c s]; simpl; try reflexivity.
  rewrite IH. reflexivity.
Qed.

Lemma length_zeros (n : nat) : String.length (zeros n) = n.
Proof. induction n as [|n IH]; simpl; [reflexivity|]. rewrite IH. reflexivity. Qed.

Lemma length_rstrip_nul (s : string) :
  String.length (rstrip_nul s) <= String.length s.
Proof.
  induction s as [|c s IH]; cbn [rstrip_nul String.length]; [lia|].
  destruct (rstrip_nul s) as [|c' r].
  - destruct (Ascii.eqb c NUL); simpl; lia.
  - cbn [String.length] in *. lia.
Qed.

(** What a rank puts into [all_gather] always has the 256 bytes of the
    receiving tensors; the name read back has at most 256 bytes; and a
    host name of at most 256 bytes that does not end in a zero byte is
    read back unchanged. *)
Theorem hostname_gather_round_trip (h : string) :
  String.length (hostname_tensor h) = 256 /\
  String.length (rstrip_nul (hostname_tensor h)) <= 256 /\
  (forall b, String.length h <= 256 -> last_char h = Some b -> b <> NUL ->
             gathered_hostnames [h] = [h]).
Proof.
  assert (Hlen : String.length (hostname_tensor h) = 256).
  { unfold hostname_tensor. rewrite length_append, length_zeros, length_take_bytes. lia. }
  split; [exact Hlen|]. split.
  - rewrite <- Hlen. apply length_rstrip_nul.
  - intros b H1 H2 H3. unfold gathered_hostnames. cbn [map].
    f_equal. eapply gathered_hostname_same; eassumption.
Qed.

Lemma hostname_gather_round_trip_witness :
  gathered_hostnames ["udc-an28-1"] = ["udc-an28-1"].
Proof.
  destruct (hostname_gather_round_trip "udc-an28-1") as (_ & _ & H).
  apply (H "1"%char); [cbn; lia|reflexivity|discriminate].
Defined.

#[local] Instance str_le_total : Total str_le.
Proof.
  intros x y. unfold str_le.
  destruct (String.leb_total x y) as [H|H]; rewrite H; [left|right]; exact I.
Qed.

(** The list of hosts rank 0 reports is in ascending order, has no
    duplicate, holds exactly the names that were gathered, and its
    length is the reported host count. *)
Theorem unique_hosts_sorted (hostnames : list string)
    (env : gmap string string) (r : results) (out : list line) :
  rank0_report hostnames env = Ret (r, out) ->
  Sorted str_le (res_hostnames r) /\
  NoDup (res_hostnames r) /\
  (forall h, h ∈ res_hostnames r <-> h ∈ hostnames) /\
  length (res_hostnames r) = unique_hosts r.
Proof.
  unfold rank0_report. destruct hostnames as [|h0 rest]; [discriminate|].
  intros [= <- _]. cbn [res_hostnames unique_hosts]. unfold sorted.
  split; [apply Sorted_merge_sort; apply _|]. split; [|split].
  - rewrite merge_sort_Permutation. apply NoDup_elements.
  - intros h. rewrite merge_sort_Permutation, elem_of_elements.
    unfold py_set. apply elem_of_list_to_set.
  - reflexivity.
Qed.

Lemma unique_hosts_sorted_witness :
  Sorted str_le ["node1"; "node2"].
Proof.
  destruct (unique_hosts_sorted ["node2"; "node1"; "node2"] ∅
              {| unique_hosts := 2; res_hostnames := ["node1"; "node2"];
                 is_multi_node := true; master_addr := "NOT SET";
                 master_addr_correct := false |}
              [UniqueHostsLine ["node1"; "node2"]; EnvLine "SLURM_NNODES" "1";
               EnvLine "SLURM_NODELIST" "?"; EnvLine "MASTER_ADDR" "NOT SET";
               EnvLine "MASTER_PORT" "NOT SET";
               MasterAddrFailed "NOT SET" "node2"; MultiNodePassed 2])
    as (H & _); [vm_compute; reflexivity|exact H].
Defined.

(** The test on [MASTER_ADDR] is lenient: it does not depend on which
    of the two strings is which, it passes whenever either is empty,
    and it passes whenever one is the other followed by more text, as a
    fully qualified name is to a short host name. *)
Theorem master_addr_matches_lenient (a b suffix : string) :
  master_addr_matches a b = master_addr_matches b a /\
  master_addr_matches "" b = true /\
  master_addr_matches a "" = true /\
  master_addr_matches (a +:+ suffix) a = true /\
  master_addr_matches a (a +:+ suffix) = true.
Proof.
  unfold master_addr_matches.
  assert (Hemp : forall s, str_in "" s = true).
  { intros s. apply str_in_spec. exists "", s. reflexivity. }
  assert (Hext : str_in a (a +:+ suffix) = true).
  { apply str_in_spec. exists "", suffix. reflexivity. }
  split; [apply orb_comm|]. split; [rewrite Hemp; reflexivity|].
  split; [rewrite Hemp; apply orb_true_r|].
  split; [rewrite Hext; apply orb_true_r|rewrite Hext; reflexivity].
Qed.

Lemma var_status_ok (env : gmap string string) (var v : string) (ok : bool) :
  var_status env var = VarStatus var v ok ->
  v = environ_get env var "NOT SET" /\
  (ok = true <-> exists v', env !! var = Some v' /\ v' <> "NOT SET").
Proof.
  unfold var_status, environ_get. intros [= <- <-]. split; [reflexivity|].
  rewrite negb_true_iff.
  destruct (env !! var) as [v'|]; simpl.
  - destruct (String.eqb_spec v' "NOT SET") as [->|Hne]; split.
    + discriminate.
    + intros (? & [= <-] & Hne). contradiction.
    + eauto.
    + reflexivity.
  - split; [discriminate|]. intros (? & [=] & _).
Qed.

(** [check_env_vars] prints on rank 0 only.  There it prints one line
    for each of the sixteen variables, with the value read from the
    environment; the line is marked OK exactly when the variable is set
    to something other than the text "NOT SET", so that a variable set
    to that very text is reported as missing. *)
Theorem check_env_vars_report (rank : nat) (env : gmap string string) :
  (rank <> 0 -> check_env_vars rank env = []) /\
  (forall var, var ∈ multi_node_vars ++ infra_vars ->
     var_status env var ∈ check_env_vars 0 env) /\
  (forall var v ok, VarStatus var v ok ∈ check_env_vars 0 env ->
     var ∈ multi_node_vars ++ infra_vars /\
     v = environ_get env var "NOT SET" /\
     (ok = true <-> exists v', env !! var = Some v' /\ v' <> "NOT SET")).
Proof.
  split; [|split].
  - intros H. unfold check_env_vars. destruct (decide (rank = 0)); [contradiction|reflexivity].
  - intros var Hin. unfold check_env_vars. cbn [decide]. simpl decide.
    apply elem_of_app in Hin as [Hin|Hin].
    + apply list_elem_of_further, elem_of_app. left.
      apply list_elem_of_fmap. eauto.
    + apply list_elem_of_further, elem_of_app. right.
      apply list_elem_of_further, list_elem_of_fmap. eauto.
  - intros var v ok Hin. unfold check_env_vars in Hin. simpl decide in Hin.
    assert (Hfrom : exists var', var' ∈ multi_node_vars ++ infra_vars /\
                      VarStatus var v ok = var_status env var').
    { apply elem_of_cons in Hin as [Hin|Hin]; [discriminate|].
      apply elem_of_app in Hin as [Hin|Hin].
      - apply list_elem_of_fmap in Hin as (var' & Heq & Hin').
        exists var'. split; [apply elem_of_app; auto|exact Heq].
      - apply elem_of_cons in Hin as [Hin|Hin]; [discriminate|].
        apply list_elem_of_fmap in Hin as (var' & Heq & Hin').
        exists var'. split; [apply elem_of_app; auto|exact Heq]. }
    destruct Hfrom as (var' & Hin' & Heq).
    assert (var = var') as <-.
    { unfold var_status in Heq. injection Heq as -> _ _. reflexivity. }
    split; [exact Hin'|]. apply var_status_ok. symmetry. exact Heq.
Qed.

Lemma check_env_vars_report_witness :
  VarStatus "RANK" "NOT SET" false ∈ check_env_vars 0 {[ "RANK" := "NOT SET" ]}.
Proof.
  destruct (check_env_vars_report 0 {[ "RANK" := "NOT SET" ]}) as (_ & H & _).
  apply (H "RANK"). unfold multi_node_vars, infra_vars.
  apply elem_of_app. left. repeat (apply list_elem_of_here || apply list_elem_of_further).
Defined.

End TopologyMore.

(** ** More on the staggered loop *)

Section BarrierFacts.

Import Topology.

Lemma printed_ranks_app (l1 l2 : list event) :
  printed_ranks (l1 ++ l2) = printed_ranks l1 ++ printed_ranks l2.
Proof.
  induction l1 as [|[r|p k] l1 IH]; simpl; [reflexivity| |exact IH].
  rewrite IH. reflexivity.
Qed.

Lemma step_length (c c' : cluster) (p : nat) :
  step c p = Some c' -> length (pcs c') = length (pcs c).
Proof.
  unfold step. destruct (pcs c !! p) as [[r|r]|]; [| |discriminate].
  - destruct (decide (r < length (pcs c))); [|discriminate].
    intros [= <-]. apply length_insert.
  - destruct (forallb _ (pcs c)); [|discriminate].
    intros [= <-]. apply length_insert.
Qed.

Lemma exec_length (schedule : list nat) :
  forall c c', exec c schedule = Some c' -> length (pcs c') = length (pcs c).
Proof.
  induction schedule as [|p rest IH]; intros c c'; cbn [exec].
  - intros [= <-]. reflexivity.
  - destruct (step c p) as [c1|] eqn:Hstep; [|discriminate].
    intros H. rewrite (IH _ _ H). eapply step_length; eassumption.
Qed.

Lemma order_inv_init (ws : nat) : order_inv (init ws).
Proof.
  split; simpl.
  - intros p q pc_p pc_q r [-> _]%lookup_replicate _. simpl. lia.
  - intros p pc_p [-> _]%lookup_replicate. simpl. lia.
  - exists 0. split; [lia|]. split; [reflexivity|].
    intros s pc_s [-> _]%lookup_replicate. simpl. lia.
Qed.

Lemma order_inv_step (c c' : cluster) (p : nat) :
  order_inv c -> step c p = Some c' -> order_inv c'.
Proof.
  intros [J1 J2 (k & Hk & Hlog & J3)]. unfold step.
  destruct (pcs c !! p) as [[r|r]|] eqn:Hp; [| |discriminate].
  - (* the loop body of iteration r *)
    destruct (decide (r < length (pcs c))) as [Hr|]; [|discriminate].
    intros [= <-]. pose proof (lookup_lt_Some _ _ _ Hp) as Hlen.
    assert (Hgrow : forall q pc_q, <[p := AtBarrier r]> (pcs c) !! q = Some pc_q ->
              exists pc_q', pcs c !! q = Some pc_q' /\ pos pc_q' <= pos pc_q /\
                            (q <> p -> pc_q' = pc_q)).
    { intros q pc_q Hq. destruct (decide (q = p)) as [->|Hne].
      - rewrite list_lookup_insert_eq in Hq by assumption. injection Hq as <-.
        exists (AtLoopHead r). simpl. split; [assumption|]. split; [lia|congruence].
      - rewrite list_lookup_insert_ne in Hq by congruence. eauto. }
    split; cbn [pcs log].
    + intros p' q pc_p pc_q r' Hp' Hq Hpos.
      destruct (Hgrow _ _ Hq) as (pc_q' & Hq' & Hle & _).
      destruct (decide (p' = p)) as [->|Hne].
      * rewrite list_lookup_insert_eq in Hp' by assumption. injection Hp' as <-.
        simpl in Hpos.
        assert (2 * r' + 1 <= pos pc_q'); [|lia].
        apply (J1 p q _ _ r' Hp Hq'). simpl. lia.
      * rewrite list_lookup_insert_ne in Hp' by congruence.
        assert (2 * r' + 1 <= pos pc_q'); [|lia]. eauto.
    + rewrite length_insert. intros q pc_q Hq.
      destruct (decide (q = p)) as [->|Hne].
      * rewrite list_lookup_insert_eq in Hq by assumption. injection Hq as <-.
        simpl. lia.
      * rewrite list_lookup_insert_ne in Hq by congruence. eauto.
    + rewrite length_insert, printed_ranks_app.
      destruct (decide (p = r)) as [<-|Hpr].
      * assert (Hkp : k = p).
        { assert (~ p < k) by (rewrite <- (J3 p _ Hp); simpl; lia).
          destruct p as [|s]; [lia|].
          destruct (lookup_lt_is_Some_2 (pcs c) s ltac:(lia)) as [pc_s Hs].
          assert (s < k); [|lia]. apply (J3 s _ Hs).
          apply (J1 (S s) s _ _ s Hp Hs). simpl. lia. }
        subst k. exists (S p). split; [lia|]. split.
        -- rewrite Hlog, seq_S. reflexivity.
        -- intros s pc_s Hs. destruct (decide (s = p)) as [->|Hne].
           ++ rewrite list_lookup_insert_eq in Hs by assumption. injection Hs as <-.
              simpl. lia.
           ++ rewrite list_lookup_insert_ne in Hs by congruence.
              rewrite (J3 s _ Hs). lia.
      * exists k. split; [lia|]. split; [rewrite Hlog; apply app_nil_r|].
        intros s pc_s Hs. destruct (decide (s = p)) as [->|Hne].
        -- rewrite list_lookup_insert_eq in Hs by assumption. injection Hs as <-.
           rewrite <- (J3 p _ Hp). simpl. lia.
        -- rewrite list_lookup_insert_ne in Hs by congruence. eauto.
  - (* leaving the barrier of iteration r *)
    destruct (forallb _ (pcs c)) eqn:Hall; [|discriminate].
    intros [= <-]. pose proof (lookup_lt_Some _ _ _ Hp) as Hlen.
    rewrite forallb_forall in Hall.
    assert (Hall' : forall q pc_q, pcs c !! q = Some pc_q -> 2 * r + 1 <= pos pc_q).
    { intros q pc_q Hq. apply Nat.leb_le, Hall, list_elem_of_In.
      eapply list_elem_of_lookup_2. eassumption. }
    pose proof (J2 p _ Hp) as Hbound. simpl in Hbound.
    split; cbn [pcs log].
    + intros p' q pc_p pc_q r' Hp' Hq Hpos.
      assert (Hq' : exists pc_q', pcs c !! q = Some pc_q' /\ pos pc_q' <= pos pc_q).
      { destruct (decide (q = p)) as [->|Hne].
        - rewrite list_lookup_insert_eq in Hq by assumption. injection Hq as <-.
          exists (AtBarrier r). simpl. split; [assumption|lia].
        - rewrite list_lookup_insert_ne in Hq by congruence. eauto. }
      destruct Hq' as (pc_q' & Hq' & Hle).
      destruct (decide (p' = p)) as [->|Hne].
      * rewrite list_lookup_insert_eq in Hp' by assumption. injection Hp' as <-.
        simpl in Hpos. pose proof (Hall' _ _ Hq'). lia.
      * rewrite list_lookup_insert_ne in Hp' by congruence.
        assert (2 * r' + 1 <= pos pc_q'); [|lia]. eauto.
    + rewrite length_insert. intros q pc_q Hq.
      destruct (decide (q = p)) as [->|Hne].
      * rewrite list_lookup_insert_eq in Hq by assumption. injection Hq as <-.
        simpl. lia.
      * rewrite list_lookup_insert_ne in Hq by congruence. eauto.
    + rewrite length_insert, printed_ranks_app. cbn [printed_ranks].
      exists k. split; [lia|]. split; [rewrite Hlog; apply app_nil_r|].
      intros s pc_s Hs. destruct (decide (s = p)) as [->|Hne].
      * rewrite list_lookup_insert_eq in Hs by assumption. injection Hs as <-.
        rewrite <- (J3 p _ Hp). simpl. lia.
      * rewrite list_lookup_insert_ne in Hs by congruence. eauto.
Qed.

Lemma order_inv_exec (schedule : list nat) :
  forall c c', order_inv c -> exec c schedule = Some c' -> order_inv c'.
Proof.
  induction schedule as [|p rest IH]; intros c c' Hinv; cbn [exec].
  - intros [= <-]. exact Hinv.
  - destruct (step c p) as [c1|] eqn:Hstep; [|discriminate].
    apply IH. eapply order_inv_step; eassumption.
Qed.

(** In every run of the loop, under every schedule, the lines printed
    so far are those of ranks 0, 1, ..., k-1, once each and in this
    order, for some k up to the world size; when every rank has left
    the loop, every rank has printed. *)
Theorem report_in_rank_order (ws : nat) (schedule : list nat) (c : cluster) :
  exec (init ws) schedule = Some c ->
  exists k, k <= ws /\ printed_ranks (log c) = seq 0 k /\
            (finished c -> k = ws).
Proof.
  intros Hexec.
  pose proof (exec_length _ _ _ Hexec) as Hlen.
  simpl in Hlen. rewrite length_replicate in Hlen.
  destruct (order_inv_exec _ _ _ (order_inv_init ws) Hexec)
    as [_ _ (k & Hk & Hlog & J3)].
  exists k. rewrite Hlen in Hk. split; [exact Hk|]. split; [exact Hlog|].
  intros Hfin. unfold finished in Hfin. rewrite Forall_lookup in Hfin.
  destruct ws as [|s]; [lia|].
  destruct (lookup_lt_is_Some_2 (pcs c) s ltac:(lia)) as [pc_s Hs].
  assert (s < k); [|lia]. apply (J3 s _ Hs).
  rewrite (Hfin _ _ Hs), Hlen. simpl. lia.
Qed.

Lemma report_in_rank_order_witness :
  exists c, exec (init 2) [0; 1; 0; 1; 1; 0; 0; 1] = Some c /\
    exists k, k <= 2 /\ printed_ranks (log c) = seq 0 k /\ (finished c -> k = 2).
Proof.
  eexists. split; [vm_compute; reflexivity|].
  apply (report_in_rank_order 2 [0; 1; 0; 1; 1; 0; 0; 1]). reflexivity.
Defined.

Lemma min_pos (l : list pc) :
  l <> [] ->
  exists m pc_m, l !! m = Some pc_m /\
    forall q pc_q, l !! q = Some pc_q -> pos pc_m <= pos pc_q.
Proof.
  induction l as [|x l IH]; [congruence|]. intros _.
  destruct l as [|y l].
  - exists 0, x. split; [reflexivity|].
    intros [|q] pc_q; simpl; [intros [= <-]; lia|discriminate].
  - destruct (IH ltac:(discriminate)) as (m & pc_m & Hm & Hmin).
    destruct (le_lt_dec (pos x) (pos pc_m)) as [Hle|Hlt].
    + exists 0, x. split; [reflexivity|].
      intros [|q] pc_q Hq; [injection Hq as <-; lia|].
      change ((y :: l) !! q = Some pc_q) in Hq. specialize (Hmin _ _ Hq). lia.
    + exists (S m), pc_m. split; [exact Hm|].
      intros [|q] pc_q Hq; [injection Hq as <-; lia|].
      change ((y :: l) !! q = Some pc_q) in Hq. eauto.
Qed.

Lemma pos_inj (a b : pc) : pos a = pos b -> a = b.
Proof. destruct a, b; simpl; intros H; f_equal; lia. Qed.

Lemma moves_insert (l : list pc) (p : nat) (x y : pc) :
  l !! p = Some x -> pos y = S (pos x) ->
  list_sum (map pos (<[p := y]> l)) = S (list_sum (map pos l)).
Proof.
  revert p. induction l as [|z l IH]; intros [|p] Hp Hy; try discriminate.
  - injection Hp as ->. simpl. lia.
  - simpl in *. rewrite (IH p Hp Hy). lia.
Qed.

Lemma step_moves (c c' : cluster) (p : nat) :
  step c p = Some c' ->
  list_sum (map pos (pcs c')) = S (list_sum (map pos (pcs c))).
Proof.
  unfold step. destruct (pcs c !! p) as [[r|r]|] eqn:Hp; [| |discriminate].
  - destruct (decide (r < length (pcs c))); [|discriminate].
    intros [= <-]. cbn [pcs]. eapply moves_insert; [eassumption|]. simpl. lia.
  - destruct (forallb _ (pcs c)); [|discriminate].
    intros [= <-]. cbn [pcs]. eapply moves_insert; [eassumption|]. simpl. lia.
Qed.

Lemma exec_moves (schedule : list nat) :
  forall c c', exec c schedule = Some c' ->
  list_sum (map pos (pcs c')) = length schedule + list_sum (map pos (pcs c)).
Proof.
  induction schedule as [|p rest IH]; intros c c'; cbn [exec].
  - intros [= <-]. reflexivity.
  - destruct (step c p) as [c1|] eqn:Hstep; [|discriminate].
    intros H. rewrite (IH _ _ H), (step_moves _ _ _ Hstep). simpl. lia.
Qed.

Lemma list_sum_replicate_0 (n : nat) :
  list_sum (map pos (replicate n (AtLoopHead 0))) = 0.
Proof. induction n as [|n IH]; simpl; [reflexivity|exact IH]. Qed.

Lemma list_sum_bound (l : list pc) (b : nat) :
  (forall q pc_q, l !! q = Some pc_q -> pos pc_q <= b) ->
  list_sum (map pos l) <= length l * b /\
  (list_sum (map pos l) = length l * b ->
   forall q pc_q, l !! q = Some pc_q -> pos pc_q = b).
Proof.
  induction l as [|x l IH]; intros Hb.
  - split; [simpl; lia|]. intros _ q pc_q. discriminate.
  - pose proof (Hb 0 x eq_refl) as Hx.
    destruct (IH (fun q pc_q H => Hb (S q) pc_q H)) as [Hle Heq].
    simpl. split; [lia|]. intros Hsum [|q] pc_q Hq.
    + injection Hq as <-. lia.
    + apply (Heq ltac:(lia) q). exact Hq.
Qed.

(** The loop cannot hang and cannot run on: in every state a run
    reaches, either every rank has left the loop or some rank can make
    its next move; no rank can move once all have left; and a run is
    over exactly when 2 * world_size moves per rank have been made. *)
Theorem barrier_loop_ends (ws : nat) (schedule : list nat) (c : cluster) :
  exec (init ws) schedule = Some c ->
  (finished c \/ exists p c', step c p = Some c') /\
  (finished c -> forall p, step c p = None) /\
  length schedule <= ws * (2 * ws) /\
  (finished c <-> length schedule = ws * (2 * ws)).
Proof.
  intros Hexec.
  pose proof (exec_length _ _ _ Hexec) as Hlen.
  simpl in Hlen. rewrite length_replicate in Hlen.
  pose proof (exec_moves _ _ _ Hexec) as Hmoves.
  cbn [init pcs] in Hmoves. rewrite list_sum_replicate_0, Nat.add_0_r in Hmoves.
  destruct (order_inv_exec _ _ _ (order_inv_init ws) Hexec) as [_ J2 _].
  rewrite Hlen in J2.
  destruct (list_sum_bound (pcs c) (2 * ws) J2) as [Hle Heq].
  rewrite Hlen, Hmoves in Hle, Heq.
  assert (Hfin : finished c -> forall p pc_p, pcs c !! p = Some pc_p ->
                                              pc_p = AtLoopHead ws).
  { unfold finished. rewrite Forall_lookup, Hlen. auto. }
  split; [|split; [|split]].
  - destruct (pcs c) as [|x l] eqn:Hpcs; [left; unfold finished; rewrite Hpcs; constructor|].
    rewrite <- Hpcs in *.
    destruct (min_pos (pcs c)) as (m & pc_m & Hm & Hmin); [rewrite Hpcs; discriminate|].
    destruct pc_m as [r|r].
    + destruct (decide (r < ws)) as [Hr|Hr].
      * right. exists m. unfold step. rewrite Hm, Hlen.
        destruct (decide (r < ws)); [eauto|contradiction].
      * left. unfold finished. rewrite Forall_lookup, Hlen. intros q pc_q Hq.
        apply pos_inj. pose proof (Hmin _ _ Hq). pose proof (J2 _ _ Hq).
        pose proof (J2 _ _ Hm). simpl in *. lia.
    + right. exists m. unfold step. rewrite Hm.
      assert (Hall : forallb (fun q => (2 * r + 1 <=? pos q)%nat) (pcs c) = true).
      { apply forallb_forall. intros pc_q Hin.
        apply list_elem_of_In, list_elem_of_lookup_1 in Hin as (q & Hq).
        apply Nat.leb_le. apply (Hmin _ _ Hq). }
      rewrite Hall. eauto.
  - intros Hf p. unfold step. destruct (pcs c !! p) as [pc_p|] eqn:Hp; [|reflexivity].
    rewrite (Hfin Hf _ _ Hp), Hlen.
    destruct (decide (ws < ws)); [lia|reflexivity].
  - exact Hle.
  - split.
    + intros Hf. rewrite <- Hmoves.
      assert (Hall : forall l, (forall q pc_q, l !! q = Some pc_q -> pc_q = AtLoopHead ws) ->
                               list_sum (map pos l) = length l * (2 * ws)).
      { induction l as [|x l IH]; intros Hl; [reflexivity|].
        simpl. rewrite (Hl 0 x eq_refl), IH; [simpl; lia|].
        intros q pc_q Hq. apply (Hl (S q)). exact Hq. }
      rewrite (Hall _ (Hfin Hf)), Hlen. reflexivity.
    + intros Hsched. unfold finished. rewrite Forall_lookup, Hlen.
      intros q pc_q Hq. apply pos_inj. simpl. rewrite (Heq Hsched _ _ Hq). lia.
Qed.

Lemma barrier_loop_ends_witness :
  exists c, exec (init 2) [0; 1; 0; 1; 1; 0; 0; 1] = Some c /\ finished c.
Proof.
  eexists. split; [vm_compute; reflexivity|].
  apply (barrier_loop_ends 2 [0; 1; 0; 1; 1; 0; 0; 1] _ eq_refl). reflexivity.
Defined.

End BarrierFacts.

(** ** The summary and the topology report *)

Section SummaryFacts.

Import Topology.

Ltac in_list :=
  repeat (rewrite elem_of_cons in * || rewrite elem_of_nil in * ||
          rewrite elem_of_app in * );
  intuition (try discriminate; try congruence; eauto).

(** With at least one rank, [check_topology] on rank 0 raises nothing,
    and the summary [main] prints from its result agrees with the
    report: ``Multi-node: YES'' exactly when the gathered names hold
    two different hosts, which is when the report has its ``PASSED''
    line for the allocation; the single-node note exactly when the
    report has its warning; ``MASTER_ADDR: PASSED'' exactly when the
    report has the matching line.  On every other rank both functions
    print nothing. *)
Theorem summary_agrees_with_topology (rank_hosts : list string)
    (env : gmap string string) (world_size : nat) (nccl_ok : bool)
    (bandwidth : Q) :
  rank_hosts <> [] ->
  (exists r out,
     check_topology 0 rank_hosts env = Ret (Some r, out) /\
     let s := summary 0 world_size (Some r) nccl_ok bandwidth in
     (MultiNodeLine true ∈ s <->
        1 < size (py_set (gathered_hostnames rank_hosts))) /\
     (MultiNodeLine true ∈ s <-> MultiNodePassed (unique_hosts r) ∈ out) /\
     (MultiNodeLine false ∈ s <-> SingleNodeNote ∈ s) /\
     (SingleNodeNote ∈ s <-> SingleNodeWarning ∈ out) /\
     (MasterAddrLine true ∈ s <-> MasterAddrPassed ∈ out)) /\
  (forall rank, rank <> 0 ->
     check_topology rank rank_hosts env = Ret (None, []) /\
     summary rank world_size None nccl_ok bandwidth = []).
Proof.
  intros Hne. split.
  - unfold check_topology, rank0_report. simpl decide. cbn iota.
    destruct (gathered_hostnames rank_hosts) as [|h0 rest] eqn:Hg.
    { destruct rank_hosts; [contradiction|discriminate]. }
    cbn [bind]. eexists _, _. split; [reflexivity|].
    cbn zeta. unfold summary.
    destruct (decide (0 = 0)) as [_|Hn]; [|contradiction].
    cbn [from_option is_multi_node master_addr_correct unique_hosts].
    rewrite length_sorted.
    destruct (bool_decide_reflect (1 < size (py_set (h0 :: rest)))) as [Hm|Hm];
      destruct (master_addr_matches _ h0); in_list.
  - intros rank Hrank. unfold check_topology, summary.
    destruct (decide (rank = 0)); [contradiction|auto].
Qed.

Lemma summary_agrees_with_topology_witness :
  SingleNodeNote ∈ summary 0 4 (Some {| unique_hosts := 1; res_hostnames := ["n1"];
     is_multi_node := false; master_addr := "n1"; master_addr_correct := true |})
     true 12.
Proof.
  destruct (summary_agrees_with_topology ["n1"; "n1"; "n1"; "n1"]
              {[ "MASTER_ADDR" := "n1" ]} 4 true 12)
    as [(r & out & Hrun & _ & _ & _ & Hnote & _) _]; [discriminate|].
  vm_compute in Hrun. injection Hrun as <- <-.
  apply Hnote. repeat (apply list_elem_of_here || apply list_elem_of_further).
Defined.

End SummaryFacts.

(** ** The whole segment *)

Section LongTrainFacts.

Import Segment LongTrain.





(** The progress lines of iterations [i], ..., [i + n - 1]. *)
Lemma work_loop_quiet (seg : segment) (fuel : nat) :
  forall i w,
  work_loop seg None fuel i (Stdout w) =
  (Stdout (w ++ map (progress_line seg)
                    (filter (fun i => i mod 60 = 0) (seq i fuel))), Ret tt).
Proof.
  induction fuel as [|fuel IH]; intros i w; cbn [work_loop due seq].
  - rewrite app_nil_r. reflexivity.
  - rewrite filter_cons. destruct (Nat.eqb_spec (i mod 60) 0) as [Hi|Hi].
    + cbn [print]. rewrite IH.
      destruct (decide (i mod 60 = 0)); [|contradiction].
      cbn [map]. rewrite <- app_assoc. reflexivity.
    + rewrite IH. destruct (decide (i mod 60 = 0)); [contradiction|reflexivity].
Qed.





End LongTrainFacts.

Section LongTrainMore.

Import Segment LongTrain.



(** A segment no signal reaches runs its 3600 iterations and exits
    with status 0.  After the three opening lines it prints one
    progress line for each iteration index divisible by 60, sixty in
    all and in ascending order, each with the prior total plus the
    index, and no line of the handler. *)
Theorem uninterrupted_run (env : gmap string string) (now : Q) (seg : segment)
    (w : list out_line) :
  start env now = Ret seg ->
  exists progress,
    script env now None (Stdout w) =
      (Stdout (w ++ startup_lines env seg ++ progress), Ret tt) /\
    exit_status (script env now None (Stdout w)).2 = 0%Z /\
    progress = map (fun k => Working (60 * Z.of_nat k)
                                     (total_elapsed seg + 60 * Z.of_nat k))
                   (seq 0 60).
Proof.
  intros Hstart.
  assert (Hrun : script env now None (Stdout w) =
    (Stdout (w ++ startup_lines env seg ++
             map (progress_line seg) (map (fun k => 60 * k) (seq 0 60))), Ret tt)).
  { unfold script. rewrite Hstart. cbn [print]. rewrite work_loop_quiet.
    replace (filter (fun i => i mod 60 = 0) (seq 0 3600))
      with (map (fun k => 60 * k) (seq 0 60)) by (vm_compute; reflexivity).
    unfold startup_lines. rewrite <- !app_assoc. reflexivity. }
  eexists. split; [exact Hrun|]. split; [rewrite Hrun; reflexivity|].
  rewrite map_map. apply map_ext. intros k. unfold progress_line.
  rewrite Nat2Z.inj_mul. reflexivity.
Qed.

Lemma uninterrupted_run_witness :
  exit_status (script {[ "RV_TOTAL_ELAPSED" := "300" ]} 1000 None (Stdout [])).2 = 0%Z.
Proof.
  destruct (uninterrupted_run {[ "RV_TOTAL_ELAPSED" := "300" ]} 1000
              {| total_elapsed := 300; total_requested := 600; segment_start := 1000 |}
              []) as (progress & _ & H & _); [vm_compute; reflexivity|exact H].
Defined.



End LongTrainMore.
